(** * The document validation pipeline of [transitions/validation]

    A shallow embedding of [shared-libs/transitions/src/lib/validation.js]:
    the rule rewriter, the synchronous evaluation step, the extra validators
    ([unique], [uniqueWithin], [exists], [isISOWeek]), the sequential
    orchestration of the extra validators and the error reducer.

    Conventions of the embedding.
    - A JavaScript function that finishes by calling its callback returns
      the callback's arguments; a thrown exception is the [Threw] outcome.
    - Effects (datastore requests, error-level log lines, writes to the
      shared [result.results] object) are threaded through a [World].
    - The grammar engine (pupil), the message lookup, the datastore and the
      clock are parameters of the development. *)

From Stdlib Require Import ZArith List String Ascii Bool Lia.
From Stdlib Require Import DecimalString DecimalPos.
Import ListNotations.

Local Open Scope string_scope.
Local Open Scope Z_scope.

(** ** JavaScript strings *)

Module JsString.

(** Whether [pat] is found at the very start of [s]. *)
Fixpoint startsWith (s pat : string) {struct pat} : bool :=
  match pat with
  | EmptyString => true
  | String a pat' =>
      match s with
      | EmptyString => false
      | String b s' => Ascii.eqb a b && startsWith s' pat'
      end
  end.

(** [s.indexOf(pat)] counted from position [i] of the enclosing string;
    [-1] when [pat] does not occur. *)
Fixpoint indexOf_from (pat s : string) (i : Z) : Z :=
  if startsWith s pat then i
  else match s with
       | EmptyString => -1
       | String _ s' => indexOf_from pat s' (i + 1)
       end.

Definition indexOf (s pat : string) : Z := indexOf_from pat s 0.

(** [s.endsWith(suffix)] *)
Fixpoint endsWith (s suffix : string) : bool :=
  String.eqb s suffix ||
  match s with
  | EmptyString => false
  | String _ s' => endsWith s' suffix
  end.

(** Lower-casing of the letters A to Z, every other character kept.  On
    text made of ASCII characters this is what [String.prototype.toLowerCase]
    returns; it is not the host function (which follows the Unicode case
    mapping) and serves only to run the module on ASCII data. *)
Definition lower_ascii (c : ascii) : ascii :=
  let n := nat_of_ascii c in
  if (Nat.leb 65 n && Nat.leb n 90)%bool then ascii_of_nat (n + 32) else c.

Fixpoint toLowerCase_ascii (s : string) : string :=
  match s with
  | EmptyString => EmptyString
  | String c s' => String (lower_ascii c) (toLowerCase_ascii s')
  end.

Definition is_digit (c : ascii) : bool :=
  let n := nat_of_ascii c in (Nat.leb 48 n && Nat.leb n 57)%bool.

Fixpoint all_digits (s : string) : bool :=
  match s with
  | EmptyString => true
  | String c s' => is_digit c && all_digits s'
  end.

(** [/^\d{lo,hi}$/.test(s)] *)
Definition test_digits (lo hi : nat) (s : string) : bool :=
  (all_digits s && Nat.leb lo (String.length s) && Nat.leb (String.length s) hi)%bool.

(** The value of a string of decimal digits, most significant first. *)
Fixpoint digits_value_acc (s : string) (acc : Z) : Z :=
  match s with
  | EmptyString => acc
  | String c s' => digits_value_acc s' (10 * acc + (Z.of_nat (nat_of_ascii c) - 48))
  end.

(** [s.split(sep)] for a one-character separator: [cur] holds the
    characters of the piece being read. *)
Fixpoint split_acc (sep : ascii) (s : string) (cur : string) : list string :=
  match s with
  | EmptyString => [cur]
  | String c s' =>
      if Ascii.eqb c sep then cur :: split_acc sep s' EmptyString
      else split_acc sep s' (cur ++ String c EmptyString)
  end.

Definition split (sep : ascii) (s : string) : list string :=
  split_acc sep s EmptyString.

(** Facts about [indexOf]. *)

Lemma append_empty_r (s : string) : s ++ "" = s.
Proof. induction s; simpl; congruence. Qed.

Lemma startsWith_app (p s : string) : startsWith (p ++ s) p = true.
Proof.
  induction p as [|c p IH]; simpl; [reflexivity|].
  rewrite Ascii.eqb_refl. exact IH.
Qed.

Lemma startsWith_refl (p : string) : startsWith p p = true.
Proof. rewrite <- (append_empty_r p) at 1. apply startsWith_app. Qed.

Lemma startsWith_app_r (p s t : string) :
  startsWith s p = true -> startsWith (s ++ t) p = true.
Proof.
  revert s. induction p as [|c p IH]; intros s H; simpl in *; [reflexivity|].
  destruct s as [|d s]; [discriminate|]. simpl.
  apply andb_true_iff in H. destruct H as [H1 H2].
  rewrite H1. simpl. auto.
Qed.

(** A string to which [pat] was appended contains [pat]. *)
Lemma indexOf_from_app_self (s pat : string) (i : Z) :
  0 <= i -> indexOf_from pat (s ++ pat) i <> -1.
Proof.
  revert i. induction s as [|c s IH]; intros i Hi.
  - simpl. destruct pat as [|d pat]; simpl; [lia|].
    rewrite Ascii.eqb_refl, startsWith_refl. simpl. lia.
  - simpl. destruct (startsWith (String c (s ++ pat)) pat); [lia|].
    apply IH. lia.
Qed.

Lemma indexOf_app_self (s pat : string) : indexOf (s ++ pat) pat <> -1.
Proof. apply indexOf_from_app_self. lia. Qed.

(** Appending to a string that contains [pat] keeps the occurrence. *)
Lemma indexOf_from_app_keep (s t pat : string) (i : Z) :
  0 <= i -> indexOf_from pat s i <> -1 -> indexOf_from pat (s ++ t) i <> -1.
Proof.
  revert i. induction s as [|c s IH]; intros i Hi.
  - simpl. destruct (startsWith "" pat) eqn:E; [|congruence].
    intros _. destruct pat; [|discriminate].
    destruct t; simpl; lia.
  - simpl. destruct (startsWith (String c s) pat) eqn:E.
    + intros _. apply (startsWith_app_r _ _ t) in E. simpl in E. rewrite E. lia.
    + intros H. destruct (startsWith (String c (s ++ t)) pat); [lia|].
      apply IH; [lia | exact H].
Qed.

Lemma indexOf_app_keep (s t pat : string) :
  indexOf s pat <> -1 -> indexOf (s ++ t) pat <> -1.
Proof. apply indexOf_from_app_keep. lia. Qed.

(** A string that ends with [pat] contains [pat]. *)
Lemma endsWith_indexOf_from (s pat : string) (i : Z) :
  0 <= i -> endsWith s pat = true -> indexOf_from pat s i <> -1.
Proof.
  revert i. induction s as [|c s IH]; intros i Hi H.
  - destruct pat; [simpl; lia | discriminate].
  - cbn [endsWith] in H. apply orb_true_iff in H. destruct H as [H|H].
    + apply String.eqb_eq in H. subst pat.
      cbn [indexOf_from]. rewrite startsWith_refl. lia.
    + cbn [indexOf_from].
      destruct (startsWith (String c s) pat); [lia|].
      apply IH; [lia | exact H].
Qed.

Lemma endsWith_indexOf (s pat : string) :
  endsWith s pat = true -> indexOf s pat <> -1.
Proof. apply endsWith_indexOf_from. lia. Qed.

End JsString.

(** ** JavaScript values and objects *)

#[local] Set Warnings "-register-all".

(** The values a document field can hold.  [JNum] carries the integer-valued
    numbers below 10^21 in magnitude, which print in plain decimal; arrays
    and fractional numbers are not represented.  (From 10^21 on the host
    prints a number with an exponent; the only texts of numbers that the
    module inspects are those of the digit tests of [isISOWeek], which
    fail on a text of more than four digits as they do on one with an
    exponent.) *)
Inductive jsval : Type :=
| JUndefined
| JNull
| JBool (b : bool)
| JNum (n : Z)
| JStr (s : string)
| JObj (props : list (string * jsval)).

(** A number that may be [NaN] ([None]). *)
Definition jsnum : Type := option Z.

Module Js.

Definition dq : string := String (ascii_of_nat 34) EmptyString.

(** [s] between double quotes. *)
Definition quoted (s : string) : string := dq ++ s ++ dq.

(** String conversion, as applied by template literals and by
    [RegExp.prototype.test]. *)
Definition to_string (v : jsval) : string :=
  match v with
  | JUndefined => "undefined"
  | JNull => "null"
  | JBool true => "true"
  | JBool false => "false"
  | JNum n => NilZero.string_of_int (Z.to_int n)
  | JStr s => s
  | JObj _ => "[object Object]"
  end.


(** Number conversion, as applied by [>=] and [<=] against a number.  On
    strings only plain digit strings are converted; every other string is
    taken to [NaN] (the callers below convert a string only after a
    digits-only test on it succeeded). *)
Definition to_number (v : jsval) : jsnum :=
  match v with
  | JUndefined => None
  | JNull => Some 0
  | JBool true => Some 1
  | JBool false => Some 0
  | JNum n => Some n
  | JStr s =>
      if (JsString.all_digits s && negb (String.eqb s EmptyString))%bool
      then Some (JsString.digits_value_acc s 0) else None
  | JObj _ => None
  end.

(** [a >= b]: false when either side is [NaN]. *)
Definition geb (a b : jsnum) : bool :=
  match a, b with
  | Some x, Some y => y <=? x
  | _, _ => false
  end.

Definition leb (a b : jsnum) : bool := geb b a.

(** Truthiness of a string and of a number. *)
Definition truthy_string (s : string) : bool := negb (String.eqb s EmptyString).

Definition truthy_num (n : jsnum) : bool :=
  match n with
  | Some z => negb (z =? 0)
  | None => false
  end.

(** Objects as association lists in property order (own properties only). *)
Section Objects.
Context {V : Type}.

(** [_.has(obj, key)] *)
Fixpoint has (obj : list (string * V)) (key : string) : bool :=
  match obj with
  | [] => false
  | (k, _) :: obj' => String.eqb k key || has obj' key
  end.

(** [obj[key]], [None] standing for [undefined]. *)
Fixpoint lookup (obj : list (string * V)) (key : string) : option V :=
  match obj with
  | [] => None
  | (k, v) :: obj' => if String.eqb k key then Some v else lookup obj' key
  end.

(** [obj[key] = v]: an existing property keeps its place, a new one goes last. *)
Fixpoint set (obj : list (string * V)) (key : string) (v : V) : list (string * V) :=
  match obj with
  | [] => [(key, v)]
  | (k, v0) :: obj' =>
      if String.eqb k key then (k, v) :: obj' else (k, v0) :: set obj' key v
  end.

(** [_.extend(obj, source)] *)
Definition extend (obj source : list (string * V)) : list (string * V) :=
  fold_left (fun acc kv => set acc (fst kv) (snd kv)) source obj.
End Objects.

(** [doc[key]] on a document. *)
Definition get (doc : list (string * jsval)) (key : string) : jsval :=
  match lookup doc key with
  | Some v => v
  | None => JUndefined
  end.

(** The property name an optional argument denotes: [undefined] used as a
    key or printed in a template literal is the string ["undefined"]. *)
Definition prop_key (arg : option string) : string :=
  match arg with
  | Some s => s
  | None => "undefined"
  end.

(** [array.indexOf(x)] on an array of strings, counted from [i]. *)
Fixpoint array_indexOf (l : list string) (x : string) (i : Z) : Z :=
  match l with
  | [] => -1
  | y :: l' => if String.eqb y x then i else array_indexOf l' x (i + 1)
  end.

(** [_.contains(array, x)] *)
Definition contains (l : list string) (x : string) : bool :=
  0 <=? array_indexOf l x 0.

Lemma array_indexOf_In (l : list string) (x : string) (i : Z) :
  0 <= i -> (0 <= array_indexOf l x i <-> In x l).
Proof.
  revert i. induction l as [|y l IH]; intros i Hi; simpl.
  - split; [lia | tauto].
  - destruct (String.eqb_spec y x) as [->|Hne].
    + split; auto.
    + rewrite (IH (i + 1)) by lia. split; [auto | intros [H|H]; [contradiction | exact H]].
Qed.

Lemma contains_In (l : list string) (x : string) :
  contains l x = true <-> In x l.
Proof.
  unfold contains. rewrite Z.leb_le. apply array_indexOf_In. lia.
Qed.

End Js.

Definition AttributeMap : Type := list (string * jsval).

(** ** Data model *)

(** One declared validation.  [funcName], [funcArgs] and [field] are written
    together by the rewriter; [funcArgs] of a spec that was never rewritten
    is the empty list.  A spec is taken to carry its [property] and its
    [rule], as the configured validations do; an object without
    [property], on which the rewriter's [v.property.indexOf] throws, is not
    represented. *)
Record ValidationSpec : Type := {
  property : string;
  rule : string;
  message : option (list (string * string));
  translation_key : option string;
  funcName : option string;
  funcArgs : list string;
  field : option string
}.

(** What the grammar engine's parser returns for one rule: entities, each
    with its [sub] list (empty when the entity has none). *)
Record SubEntity : Type := {
  e_funcName : option string;
  e_funcArgs : list string
}.

Record Entity : Type := { sub : list SubEntity }.

(** property -> validity, in the order of the object's properties. *)
Definition ResultSet : Type := list (string * bool).

Record ErrorDescriptor : Type := {
  code : string;
  err_message : option string
}.

(** The third argument of [extractErrors] and [validate]: left out, one
    name, an array of names, or (when [validate] is called with three
    arguments) the callback function itself. *)
Inductive Ignores : Type :=
| IgnUndefined
| IgnName (name : string)
| IgnArray (names : list string)
| IgnFunction.

(** An element of the array handed to [validate]'s callback. *)
Inductive ErrorEntry : Type :=
| ErrString (s : string)
| ErrDescriptor (d : ErrorDescriptor).

Inductive JsError : Type :=
| Error (msg : string)
| TypeError (msg : string).

(** A document as the datastore returns it in an [allDocs] row. *)
Record StoredDoc : Type := {
  sd_errors : option (list string);
  sd_reported_date : jsnum
}.

(** The options object of the shared existence check. *)
Record ExistsOptions : Type := {
  additionalFilter : option string;
  startDate : option jsnum
}.

(** ** Effects *)

(** What a run leaves behind, oldest first: a view request
    [db.medic.query('medic-client/reports_by_freetext', {key: [key]})], a
    request [db.medic.allDocs({keys, include_docs: true})], a line logged
    at error level (its format string), the call of [pupil.validate], and
    the call of the registry entry [name] for the spec with property
    [prop]. *)
Inductive Event : Type :=
| EvQuery (key : string)
| EvAllDocs (keys : list string)
| EvLogError (msg : string)
| EvPupilValidate
| EvInvoke (name : string) (prop : string).

Record World : Type := {
  trace : list Event;
  results : ResultSet
}.

Inductive Outcome (A : Type) : Type :=
| Returned (a : A)
| Threw (e : JsError).
Arguments Returned {A} a.
Arguments Threw {A} e.

Definition Eff (A : Type) : Type := World -> Outcome A * World.

Definition ret {A : Type} (a : A) : Eff A := fun w => (Returned a, w).

Definition bind {A B : Type} (m : Eff A) (k : A -> Eff B) : Eff B :=
  fun w =>
    match m w with
    | (Returned a, w') => k a w'
    | (Threw e, w') => (Threw e, w')
    end.

Definition throw {A : Type} (e : JsError) : Eff A := fun w => (Threw e, w).

Definition emit (ev : Event) : Eff unit :=
  fun w => (Returned tt, {| trace := trace w ++ [ev]; results := results w |}).

(** Modelled from the spec: [result.fields()] of the object that
    [pupil.validate] returns (the grammar engine is not among the sources
    at hand); the accessor returns the [results] mapping itself. *)
Definition result_fields : Eff ResultSet := fun w => (Returned (results w), w).

Definition put_results (r : ResultSet) : Eff unit :=
  fun w => (Returned tt, {| trace := trace w; results := r |}).

Declare Scope eff_scope.
Delimit Scope eff_scope with eff.
Notation "x <- m ;; k" := (bind m (fun x => k))
  (at level 100, m at next level, right associativity) : eff_scope.
Notation "m ;;; k" := (bind m (fun _ => k))
  (at level 100, right associativity) : eff_scope.
Local Open Scope eff_scope.

(** [async.eachSeries(coll, iteratee, done)]: the items one after the other;
    the first error ends the series and is what [done] receives. *)
Fixpoint eachSeries {X : Type} (coll : list X) (iteratee : X -> Eff (option JsError))
  : Eff (option JsError) :=
  match coll with
  | [] => ret None
  | x :: rest =>
      err <- iteratee x ;;
      match err with
      | Some e => ret (Some e)
      | None => eachSeries rest iteratee
      end
  end.

(** [async.map(coll, iteratee, done)]: every request is started; [done]
    receives an error if one of them failed (here the first in list order)
    and all the responses otherwise. *)
Fixpoint async_map {X Y : Type} (coll : list X) (iteratee : X -> Eff (JsError + Y))
  : Eff (JsError + list Y) :=
  match coll with
  | [] => ret (inr [])
  | x :: rest =>
      r <- iteratee x ;;
      rs <- async_map rest iteratee ;;
      ret (match r, rs with
           | inl e, _ => inl e
           | inr _, inl e => inl e
           | inr y, inr ys => inr (y :: ys)
           end)
  end.

(** ** ISO weeks (moment's [isoWeeksInYear]) *)

Module Moment.

Definition isLeapYear (year : Z) : bool :=
  ((year mod 4 =? 0) && negb (year mod 100 =? 0)) || (year mod 400 =? 0).

Definition daysInYear (year : Z) : Z := if isLeapYear year then 366 else 365.

(** Days from 1 January of year 1 to 1 January of [year] (proleptic
    Gregorian calendar). *)
Definition days_before_year (year : Z) : Z :=
  let y := year - 1 in 365 * y + y / 4 - y / 100 + y / 400.

(** [createUTCDate(year, 0, day).getUTCDay()]: the day of the week
    (0 = Sunday) of the [day]-th of January; 1 January of year 1 is a Monday. *)
Definition january_getUTCDay (year day : Z) : Z :=
  (1 + days_before_year year + (day - 1)) mod 7.

Definition firstWeekOffset (year dow doy : Z) : Z :=
  let fwd := 7 + dow - doy in
  let fwdlw := (7 + january_getUTCDay year fwd - dow) mod 7 in
  - fwdlw + fwd - 1.

Definition weeksInYear (year dow doy : Z) : Z :=
  let weekOffset := firstWeekOffset year dow doy in
  let weekOffsetNext := firstWeekOffset (year + 1) dow doy in
  (daysInYear year - weekOffset + weekOffsetNext) / 7.

(** [moment().year(year).isoWeeksInYear()]: setting the year keeps the
    clock's month and day (29 February becomes an adjacent day), so the
    result depends on [year] alone. *)
Definition isoWeeksInYear (year : Z) : Z := weeksInYear year 1 4.

Example isoWeeksInYear_2015 : isoWeeksInYear 2015 = 53.
Proof. reflexivity. Qed.

Example isoWeeksInYear_2016 : isoWeeksInYear 2016 = 52.
Proof. reflexivity. Qed.

Example isoWeeksInYear_2020 : isoWeeksInYear 2020 = 53.
Proof. reflexivity. Qed.

(** The years from [lo] on, [n] of them. *)
Fixpoint years_from (lo : Z) (n : nat) : list Z :=
  match n with
  | O => []
  | S n' => lo :: years_from (lo + 1) n'
  end.

Lemma years_from_In (n : nat) (lo y : Z) :
  lo <= y < lo + Z.of_nat n -> In y (years_from lo n).
Proof.
  revert lo. induction n as [|n IH]; intros lo H; [lia|].
  simpl. destruct (Z.eq_dec lo y); [left; assumption|].
  right. apply IH. lia.
Qed.

(** Every four-digit year has 52 or 53 ISO weeks, and the division by 7
    in [weeksInYear] is exact. *)
Lemma isoWeeksInYear_52_53 (year : Z) :
  0 <= year <= 9999 ->
  (isoWeeksInYear year = 52 \/ isoWeeksInYear year = 53) /\
  (daysInYear year - firstWeekOffset year 1 4 + firstWeekOffset (year + 1) 1 4) mod 7 = 0.
Proof.
  intros H.
  assert (A : forallb
                (fun y => ((isoWeeksInYear y =? 52) || (isoWeeksInYear y =? 53)) &&
                          ((daysInYear y - firstWeekOffset y 1 4
                            + firstWeekOffset (y + 1) 1 4) mod 7 =? 0))
                (years_from 0 (Z.to_nat 10000)) = true) by (vm_compute; reflexivity).
  rewrite forallb_forall in A.
  assert (B : 0 <= year < 0 + Z.of_nat (Z.to_nat 10000))
    by (rewrite Z2Nat.id; lia).
  specialize (A year (years_from_In _ 0 year B)).
  apply andb_true_iff in A. destruct A as [A1 A2].
  apply orb_true_iff in A1. rewrite !Z.eqb_eq in A1. rewrite Z.eqb_eq in A2.
  split; assumption.
Qed.

End Moment.

(** ** The validation module *)

Section Validation.

#[local] Set Default Proof Using "Type".

(** The grammar engine: [pupil_parse rule] is
    [pupil.parser.parse(pupil.lexer.tokenize(rule))] and [pupil_validate]
    is [pupil.validate]; [inl e] stands for the exception [e] they throw. *)
Variable PupilError : Type.
Variable JSON_stringify : PupilError -> string.
Variable pupil_parse : string -> PupilError + list Entity.
Variable pupil_validate : list (string * string) -> AttributeMap -> PupilError + ResultSet.

(** Localisation: [utils.getLocale] and [messages.getMessage]. *)
Variable Locale : Type.
Variable getLocale : AttributeMap -> Locale.
Variable getMessage : ValidationSpec -> Locale -> string.

(** The datastore: the row ids the [medic-client/reports_by_freetext] view
    holds under a key, the document stored under an id, and the failures
    of the two requests.  Every row that [allDocs] returns is taken to
    carry its document. *)
Variable db_query : string -> JsError + list string.
Variable db_doc : string -> StoredDoc.
Variable db_allDocs_error : list string -> option JsError.

(** The clock and the date library: [new Date().getFullYear()],
    [parseInt], [moment.duration(n, unit)] and
    [moment().subtract(duration).valueOf()]. *)
Variable getFullYear : Z.
Variable Duration : Type.
Variable parseInt : string -> jsnum.
Variable moment_duration : jsnum -> option string -> Duration.
Variable moment_subtract_valueOf : Duration -> jsnum.

(** The host's [String.prototype.toLowerCase]. *)
Variable toLowerCase : string -> string.

Definition Validator : Type :=
  AttributeMap -> ValidationSpec -> Eff (option JsError * option bool).

Definition _parseDuration (duration : string) : Duration :=
  let parts := JsString.split " "%char duration in
  moment_duration (parseInt (nth 0 parts EmptyString)) (nth_error parts 1).

(** A response is the list of its rows' ids.  [None]: [responses.pop()]
    is [undefined] and reading its [rows] throws. *)
Definition _getIntersection (responses : list (list string)) : option (list string) :=
  match rev responses with
  | [] => None
  | last_response :: others =>
      Some (fold_left
              (fun ids response => filter (fun id => existsb (String.eqb id) response) ids)
              (rev others) last_response)
  end.

Definition _executeExistsRequest (key : string) : Eff (JsError + list string) :=
  emit (EvQuery key) ;;; ret (db_query key).

Definition lowerCaseString (obj : jsval) : jsval :=
  match obj with
  | JStr s => JStr (toLowerCase s)
  | _ => obj
  end.

Definition no_arguments_error : JsError :=
  Error ("No arguments provided to " ++ Js.quoted "exists" ++ " validation function").

(** [id !== doc._id] *)
Definition is_other_id (doc : AttributeMap) (id : string) : bool :=
  match Js.get doc "_id" with
  | JStr own => negb (String.eqb id own)
  | _ => true
  end.

(** [!doc.errors || doc.errors.length === 0] *)
Definition no_errors (d : StoredDoc) : bool :=
  match sd_errors d with
  | None => true
  | Some l => Nat.eqb (List.length l) 0
  end.

(** [!options.startDate || doc.reported_date >= options.startDate] *)
Definition in_window (options : ExistsOptions) (d : StoredDoc) : bool :=
  match startDate options with
  | Some sd => negb (Js.truthy_num sd) || Js.geb (sd_reported_date d) sd
  | None => true
  end.

Definition requestOptions_of (doc : AttributeMap) (fields : list string)
    (options : ExistsOptions) : list string :=
  map (fun field => field ++ ":" ++ Js.to_string (lowerCaseString (Js.get doc field))) fields
  ++ match additionalFilter options with
     | Some f =>
         if Js.truthy_string f then [Js.to_string (lowerCaseString (JStr f))] else []
     | None => []
     end.

Definition _exists (doc : AttributeMap) (fields : list string)
    (options : option ExistsOptions) : Eff (option JsError * option bool) :=
  let options :=
    match options with
    | Some o => o
    | None => {| additionalFilter := None; startDate := None |}
    end in
  match fields with
  | [] => ret (Some no_arguments_error, None)
  | _ :: _ =>
      r <- async_map (requestOptions_of doc fields options) _executeExistsRequest ;;
      match r with
      | inl err => ret (Some err, None)
      | inr responses =>
          match _getIntersection responses with
          | None => throw (TypeError "Cannot read property 'rows' of undefined")
          | Some intersection =>
              match filter (is_other_id doc) intersection with
              | [] => ret (None, Some false)
              | (_ :: _) as ids =>
                  emit (EvAllDocs ids) ;;;
                  match db_allDocs_error ids with
                  | Some err => ret (Some err, None)
                  | None =>
                      ret (None,
                           Some (existsb (fun d => no_errors d && in_window options d)
                                         (map db_doc ids)))
                  end
              end
          end
      end
  end.

(** [!result] on what the existence check hands over. *)
Definition js_not (result : option bool) : bool :=
  match result with
  | Some b => negb b
  | None => true
  end.

Definition log_if_error (err : option JsError) (name : string) : Eff unit :=
  match err with
  | Some _ => emit (EvLogError ("Error running " ++ Js.quoted name ++ " validation: %o"))
  | None => ret tt
  end.

Definition unique : Validator := fun doc validation =>
  r <- _exists doc (funcArgs validation) None ;;
  log_if_error (fst r) "unique" ;;;
  ret (fst r, Some (js_not (snd r))).

Definition uniqueWithin : Validator := fun doc validation =>
  match rev (funcArgs validation) with
  | [] => throw (TypeError "Cannot read property 'split' of undefined")
  | last_arg :: others =>
      let fields := rev others in
      let duration := _parseDuration last_arg in
      let start := moment_subtract_valueOf duration in
      r <- _exists doc fields (Some {| additionalFilter := None; startDate := Some start |}) ;;
      log_if_error (fst r) "uniqueWithin" ;;;
      ret (fst r, Some (js_not (snd r)))
  end.

Definition exists_ : Validator := fun doc validation =>
  let formName := nth_error (funcArgs validation) 0 in
  let fieldName := nth_error (funcArgs validation) 1 in
  r <- _exists doc [Js.prop_key fieldName]
         (Some {| additionalFilter := Some ("form:" ++ Js.prop_key formName);
                  startDate := None |}) ;;
  log_if_error (fst r) "exists" ;;;
  ret (fst r, snd r).

(** [funcArgs[1] || null] *)
Definition yearFieldName_of (validation : ValidationSpec) : option string :=
  match nth_error (funcArgs validation) 1 with
  | Some s => if Js.truthy_string s then Some s else None
  | None => None
  end.

Definition isValidISOWeek (week year : jsval) : bool :=
  JsString.test_digits 1 2 (Js.to_string week) &&
  JsString.test_digits 4 4 (Js.to_string year) &&
  Js.geb (Js.to_number week) (Some 1) &&
  Js.leb (Js.to_number week) (option_map Moment.isoWeeksInYear (Js.to_number year)).

Definition isISOWeek : Validator := fun doc validation =>
  let weekFieldName := Js.prop_key (nth_error (funcArgs validation) 0) in
  let yearFieldName := yearFieldName_of validation in
  if negb (Js.has doc weekFieldName) ||
     match yearFieldName with
     | Some y => negb (Js.has doc y)
     | None => false
     end
  then
    emit (EvLogError "isISOWeek validation failed: input field(s) do not exist") ;;;
    ret (None, Some false)
  else
    let year :=
      match yearFieldName with
      | Some y => Js.get doc y
      | None => JNum getFullYear
      end in
    if isValidISOWeek (Js.get doc weekFieldName) year
    then ret (None, Some true)
    else
      emit (EvLogError
              "isISOWeek validation failed: the number of week is greater than the maximum") ;;;
      ret (None, Some false).

(** The registry, by name (its own four entries; a name it does not hold
    gives [undefined]). *)
Definition extra_validations (name : string) : option Validator :=
  if String.eqb name "unique" then Some unique
  else if String.eqb name "uniqueWithin" then Some uniqueWithin
  else if String.eqb name "exists" then Some exists_
  else if String.eqb name "isISOWeek" then Some isISOWeek
  else None.

(** [Object.keys(self.extra_validations)] *)
Definition names : list string := ["unique"; "uniqueWithin"; "exists"; "isISOWeek"].

(** *** The error reducer *)

(** [ignores = ignores || []; if (!_.isArray(ignores)) ignores = [ignores]],
    as far as [_.contains(ignores, key)] on a string [key] goes. *)
Definition ignore_list (ignores : Ignores) : list string :=
  match ignores with
  | IgnUndefined => []
  | IgnName name => if Js.truthy_string name then [name] else []
  | IgnArray l => l
  | IgnFunction => []
  end.

Definition extractErrors (result : ResultSet) (messages : list (string * string))
    (ignores : Ignores) : list ErrorDescriptor :=
  let ignores := ignore_list ignores in
  fold_left
    (fun (memo : list ErrorDescriptor) (kv : string * bool) =>
       let '(key, valid) := kv in
       if negb valid && negb (Js.contains ignores key)
       then (memo ++ [{| code := "invalid_" ++ key; err_message := Js.lookup messages key |}])%list
       else memo)
    result [].

Definition truthy_opt_string (o : option string) : bool :=
  match o with
  | Some s => Js.truthy_string s
  | None => false
  end.

Definition getMessages (validations : list ValidationSpec) (locale : Locale)
  : list (string * string) :=
  fold_left
    (fun memo validation =>
       if Js.truthy_string (property validation) &&
          (match message validation with Some _ => true | None => false end
           || truthy_opt_string (translation_key validation))
       then Js.set memo (property validation) (getMessage validation locale)
       else memo)
    validations [].

Definition getRules (validations : list ValidationSpec) : list (string * string) :=
  fold_left
    (fun memo validation =>
       if Js.truthy_string (property validation) && Js.truthy_string (rule validation)
       then Js.set memo (property validation) (rule validation)
       else memo)
    validations [].

(** *** The rule rewriter (the first loop of [validate]) *)

(** The body run for one sub-entity [e] of the rule of [v]. *)
Definition rewrite_sub (v : ValidationSpec) (e : SubEntity) : ValidationSpec :=
  match e_funcName e with
  | Some name =>
      if 0 <=? Js.array_indexOf names name 0 then
        if JsString.indexOf (property v) ("_" ++ name) =? -1 then
          {| property := property v ++ "_" ++ name;
             rule := rule v;
             message := message v;
             translation_key := translation_key v;
             funcName := Some name;
             funcArgs := e_funcArgs e;
             field := Some (property v) |}
        else v
      else v
  | None => v
  end.

Definition rewrite_entity (v : ValidationSpec) (entity : Entity) : ValidationSpec :=
  fold_left rewrite_sub (sub entity) v.

(** One turn of the outer loop: the spec as the loop leaves it, or the
    parser's exception. *)
Definition rewrite_spec (config : ValidationSpec) : PupilError + ValidationSpec :=
  match pupil_parse (rule config) with
  | inl e => inl e
  | inr entities => inr (fold_left rewrite_entity entities config)
  end.

(** The whole loop: the specs as it leaves them (a spec whose rule does
    not parse is left alone) and the exceptions caught, in order. *)
Fixpoint validate_rewrite (validations : list ValidationSpec)
  : list ValidationSpec * list PupilError :=
  match validations with
  | [] => ([], [])
  | config :: rest =>
      let '(rest', errors) := validate_rewrite rest in
      match rewrite_spec config with
      | inl e => (config :: rest', e :: errors)
      | inr v => (v :: rest', errors)
      end
  end.

Definition pupil_error_string (e : PupilError) : string :=
  "Error on pupil validations: " ++ JSON_stringify e.

(** *** The orchestration of the extra validators *)

(** [_.extend({}, doc, doc.fields)] *)
Definition attributes_of (doc : AttributeMap) : AttributeMap :=
  let attributes := Js.extend [] doc in
  match Js.get doc "fields" with
  | JObj fields => Js.extend attributes fields
  | _ => attributes
  end.

(** [result.results[property] = false] *)
Definition set_invalid (prop : string) : Eff unit :=
  fun w => (Returned tt, {| trace := trace w; results := Js.set (results w) prop false |}).

(** The iteratee handed to [async.eachSeries]; its value is what it passes
    to [cb]. *)
Definition validate_iteratee (attributes : AttributeMap) (v : ValidationSpec)
  : Eff (option JsError) :=
  match funcName v with
  | None => ret None
  | Some name =>
      if negb (Js.truthy_string name) then ret None
      else
        match extra_validations name with
        | None => throw (TypeError "Cannot read property 'call' of undefined")
        | Some validator =>
            emit (EvInvoke name (property v)) ;;;
            r <- validator attributes v ;;
            match snd r with
            | Some false => set_invalid (property v)
            | _ => ret tt
            end ;;;
            ret (fst r)
        end
  end.

Fixpoint log_parse_errors (errors : list PupilError) : Eff unit :=
  match errors with
  | [] => ret tt
  | _ :: rest => emit (EvLogError "error parsing validation: %o") ;;; log_parse_errors rest
  end.

(** [validate(doc, validations, ignores, callback)]: the value is the
    array the callback receives. *)
Definition validate (doc : AttributeMap) (validations : list ValidationSpec)
    (ignores : Ignores) : Eff (list ErrorEntry) :=
  let '(validations, parse_errors) := validate_rewrite validations in
  log_parse_errors parse_errors ;;;
  match parse_errors with
  | _ :: _ => ret (map (fun e => ErrString (pupil_error_string e)) parse_errors)
  | [] =>
      let attributes := attributes_of doc in
      emit EvPupilValidate ;;;
      match pupil_validate (getRules validations) attributes with
      | inl e => ret [ErrString (pupil_error_string e)]
      | inr result =>
          put_results result ;;;
          _ <- eachSeries validations (validate_iteratee attributes) ;;
          fields <- result_fields ;;
          ret (map ErrDescriptor
                   (extractErrors fields (getMessages validations (getLocale doc)) ignores))
      end
  end.


(** ** Properties of the rule rewriter *)

(** The spec the guarded branch of the rewriter builds from [v] for the
    sub-entity [e] calling the extra validator [name]. *)
Definition rewritten (v : ValidationSpec) (e : SubEntity) (name : string) : ValidationSpec :=
  {| property := property v ++ "_" ++ name;
     rule := rule v;
     message := message v;
     translation_key := translation_key v;
     funcName := Some name;
     funcArgs := e_funcArgs e;
     field := Some (property v) |}.

(** Whether a sub-entity calls a registered extra validator. *)
Definition is_registered (e : SubEntity) : bool :=
  match e_funcName e with
  | Some name => 0 <=? Js.array_indexOf names name 0
  | None => false
  end.

(** The sub-entities of a parsed rule that call a registered extra
    validator, in the order the loops visit them. *)
Definition registered_subs (entities : list Entity) : list SubEntity :=
  filter is_registered (flat_map sub entities).

(** [property] mentions the suffix the rewriter would add for [e]. *)
Definition mentions (v : ValidationSpec) (e : SubEntity) : Prop :=
  forall name, e_funcName e = Some name ->
               JsString.indexOf (property v) ("_" ++ name) <> -1.

Lemma rewrite_sub_unregistered (v : ValidationSpec) (e : SubEntity) :
  is_registered e = false -> rewrite_sub v e = v.
Proof.
  unfold is_registered, rewrite_sub. destruct (e_funcName e) as [name|]; [|reflexivity].
  intros ->. reflexivity.
Qed.

Lemma rewrite_sub_registered (v : ValidationSpec) (e : SubEntity) (name : string) :
  e_funcName e = Some name -> In name names ->
  rewrite_sub v e =
    if JsString.indexOf (property v) ("_" ++ name) =? -1 then rewritten v e name else v.
Proof.
  intros He Hin. unfold rewrite_sub. rewrite He.
  assert (H : (0 <=? Js.array_indexOf names name 0) = true).
  { apply Z.leb_le. apply Js.array_indexOf_In; [lia | exact Hin]. }
  rewrite H. reflexivity.
Qed.

Lemma rewrite_sub_mentioned (v : ValidationSpec) (e : SubEntity) :
  mentions v e -> rewrite_sub v e = v.
Proof.
  intros H. unfold rewrite_sub. destruct (e_funcName e) as [name|] eqn:He; [|reflexivity].
  destruct (0 <=? _); [|reflexivity].
  specialize (H name He).
  destruct (Z.eqb_spec (JsString.indexOf (property v) ("_" ++ name)) (-1)); [contradiction | reflexivity].
Qed.

Lemma fold_rewrite_entity_flat (entities : list Entity) (v : ValidationSpec) :
  fold_left rewrite_entity entities v = fold_left rewrite_sub (flat_map sub entities) v.
Proof.
  revert v. induction entities as [|en entities IH]; intros v; simpl; [reflexivity|].
  rewrite fold_left_app. apply IH.
Qed.

Lemma fold_rewrite_sub_registered (subs : list SubEntity) (v : ValidationSpec) :
  fold_left rewrite_sub subs v = fold_left rewrite_sub (filter is_registered subs) v.
Proof.
  revert v. induction subs as [|e subs IH]; intros v; simpl; [reflexivity|].
  destruct (is_registered e) eqn:E; simpl.
  - apply IH.
  - rewrite rewrite_sub_unregistered by exact E. apply IH.
Qed.

Lemma rewrite_spec_registered_subs (v : ValidationSpec) (entities : list Entity) :
  pupil_parse (rule v) = inr entities ->
  rewrite_spec v = inr (fold_left rewrite_sub (registered_subs entities) v).
Proof.
  intros H. unfold rewrite_spec, registered_subs. rewrite H.
  rewrite fold_rewrite_entity_flat, fold_rewrite_sub_registered. reflexivity.
Qed.

(** The rewriter only ever appends to [property], and keeps [rule]. *)
Lemma rewrite_sub_grows (v : ValidationSpec) (e : SubEntity) :
  (exists t, property (rewrite_sub v e) = property v ++ t) /\
  rule (rewrite_sub v e) = rule v.
Proof.
  unfold rewrite_sub. destruct (e_funcName e) as [name|].
  - destruct (0 <=? _); [destruct (_ =? -1)|]; simpl; split; try reflexivity;
      first [ exists ("_" ++ name); reflexivity
            | exists EmptyString; symmetry; apply JsString.append_empty_r ].
  - split; [exists EmptyString; symmetry; apply JsString.append_empty_r | reflexivity].
Qed.

Lemma string_app_assoc (a b c : string) : (a ++ b) ++ c = a ++ (b ++ c).
Proof. induction a; simpl; congruence. Qed.

Lemma fold_rewrite_sub_grows (subs : list SubEntity) (v : ValidationSpec) :
  (exists t, property (fold_left rewrite_sub subs v) = property v ++ t) /\
  rule (fold_left rewrite_sub subs v) = rule v.
Proof.
  revert v. induction subs as [|e subs IH]; intros v; simpl.
  - split; [exists EmptyString; symmetry; apply JsString.append_empty_r | reflexivity].
  - destruct (IH (rewrite_sub v e)) as [[t Ht] Hr].
    destruct (rewrite_sub_grows v e) as [[t' Ht'] Hr'].
    split; [|congruence].
    exists (t' ++ t). rewrite Ht, Ht'. apply string_app_assoc.
Qed.

Lemma rewrite_sub_mentions (v : ValidationSpec) (e : SubEntity) :
  is_registered e = true -> mentions (rewrite_sub v e) e.
Proof.
  unfold is_registered, mentions, rewrite_sub. intros Hreg name He. rewrite He in *.
  rewrite Hreg.
  destruct (Z.eqb_spec (JsString.indexOf (property v) ("_" ++ name)) (-1)) as [_|Hn].
  - simpl. apply JsString.indexOf_app_self.
  - exact Hn.
Qed.

Lemma mentions_fold (subs : list SubEntity) (v : ValidationSpec) (e : SubEntity) :
  mentions v e -> mentions (fold_left rewrite_sub subs v) e.
Proof.
  intros H name He. destruct (fold_rewrite_sub_grows subs v) as [[t Ht] _].
  rewrite Ht. apply JsString.indexOf_app_keep. apply H. exact He.
Qed.

(** After the loops every registered sub-entity is mentioned. *)
Lemma fold_rewrite_sub_mentions (subs : list SubEntity) (v : ValidationSpec) :
  Forall (fun e => is_registered e = true -> mentions (fold_left rewrite_sub subs v) e) subs.
Proof.
  revert v. induction subs as [|e subs IH]; intros v; constructor.
  - intros Hreg. simpl. apply mentions_fold. apply rewrite_sub_mentions. exact Hreg.
  - simpl. apply IH.
Qed.

Lemma fold_rewrite_sub_fixed (subs : list SubEntity) (v : ValidationSpec) :
  Forall (fun e => is_registered e = true -> mentions v e) subs ->
  fold_left rewrite_sub subs v = v.
Proof.
  induction 1 as [|e subs He _ IH]; simpl; [reflexivity|].
  destruct (is_registered e) eqn:E.
  - rewrite rewrite_sub_mentioned by (apply He; reflexivity). exact IH.
  - rewrite rewrite_sub_unregistered by exact E. exact IH.
Qed.

Lemma rewrite_spec_fixed (config v : ValidationSpec) :
  rewrite_spec config = inr v -> rewrite_spec v = inr v.
Proof.
  unfold rewrite_spec. destruct (pupil_parse (rule config)) as [e|entities] eqn:P; [discriminate|].
  intros H. injection H as H. rewrite fold_rewrite_entity_flat in H.
  assert (R : rule v = rule config) by (subst v; apply fold_rewrite_sub_grows).
  rewrite R, P. f_equal. rewrite fold_rewrite_entity_flat.
  apply fold_rewrite_sub_fixed. subst v. apply fold_rewrite_sub_mentions.
Qed.

Lemma registered_In_names (e : SubEntity) (name : string) :
  is_registered e = true -> e_funcName e = Some name -> In name names.
Proof.
  unfold is_registered. intros H He. rewrite He in H.
  apply Z.leb_le in H. apply (Js.array_indexOf_In names name 0); [lia | exact H].
Qed.

(** The guard of the rewriter as the code has it.  The rewriter visits the
    sub-entities of the parsed rule that call a registered extra
    validator, in order.  For such a sub-entity [e] calling [name] it
    records [funcName] and [funcArgs], sets [field] to the property and
    appends [_name] to [property] when [indexOf] finds no [_name] in the
    property; when the property contains [_name] anywhere -- at its end
    or not -- the spec is left as it is. *)
Lemma rewrite_spec_contains_guard (v : ValidationSpec) (entities : list Entity) :
  pupil_parse (rule v) = inr entities ->
  rewrite_spec v = inr (fold_left rewrite_sub (registered_subs entities) v) /\
  (forall v' e name,
      In e (registered_subs entities) -> e_funcName e = Some name ->
      (JsString.indexOf (property v') ("_" ++ name) = -1 ->
         rewrite_sub v' e = rewritten v' e name) /\
      (JsString.indexOf (property v') ("_" ++ name) <> -1 -> rewrite_sub v' e = v') /\
      (JsString.endsWith (property v') ("_" ++ name) = true -> rewrite_sub v' e = v')) /\
  (forall e name,
      registered_subs entities = [e] -> e_funcName e = Some name ->
      (JsString.indexOf (property v) ("_" ++ name) = -1 ->
         rewrite_spec v = inr (rewritten v e name)) /\
      (JsString.indexOf (property v) ("_" ++ name) <> -1 -> rewrite_spec v = inr v) /\
      (JsString.endsWith (property v) ("_" ++ name) = true -> rewrite_spec v = inr v)).
Proof.
  intros Hparse.
  assert (Step : forall v' e name,
             In e (registered_subs entities) -> e_funcName e = Some name ->
             (JsString.indexOf (property v') ("_" ++ name) = -1 ->
                rewrite_sub v' e = rewritten v' e name) /\
             (JsString.indexOf (property v') ("_" ++ name) <> -1 -> rewrite_sub v' e = v') /\
             (JsString.endsWith (property v') ("_" ++ name) = true -> rewrite_sub v' e = v')).
  { intros v' e name I He.
    assert (Hreg : is_registered e = true).
    { unfold registered_subs in I. apply filter_In in I. destruct I as [_ I]. exact I. }
    pose proof (registered_In_names e name Hreg He) as Hin.
    rewrite (rewrite_sub_registered v' e name He Hin).
    assert (Hcontains : JsString.indexOf (property v') ("_" ++ name) <> -1 ->
                        (if JsString.indexOf (property v') ("_" ++ name) =? -1
                         then rewritten v' e name else v') = v').
    { intros H. destruct (Z.eqb_spec (JsString.indexOf (property v') ("_" ++ name)) (-1));
        [contradiction | reflexivity]. }
    split; [|split].
    - intros H. rewrite H. reflexivity.
    - exact Hcontains.
    - intros H. apply Hcontains. apply JsString.endsWith_indexOf. exact H. }
  split; [apply rewrite_spec_registered_subs; exact Hparse|].
  split; [exact Step|].
  intros e name Hsubs He.
  rewrite (rewrite_spec_registered_subs v entities Hparse), Hsubs. cbn [fold_left].
  destruct (Step v e name) as [S1 [S2 S3]];
    [rewrite Hsubs; left; reflexivity | exact He |].
  split; [|split]; intros H; f_equal; auto.
Qed.

(** C5: running the rewriting loop again on the list it produced changes
    nothing: the specs, and so their property names, are those of the
    first run -- no [_funcName] suffix is added twice. *)
Theorem validate_rewrite_idempotent (validations : list ValidationSpec) :
  fst (validate_rewrite (fst (validate_rewrite validations))) = fst (validate_rewrite validations) /\
  map property (fst (validate_rewrite (fst (validate_rewrite validations))))
  = map property (fst (validate_rewrite validations)).
Proof.
  assert (H : fst (validate_rewrite (fst (validate_rewrite validations)))
              = fst (validate_rewrite validations)).
  { induction validations as [|config rest IH]; [reflexivity|].
    simpl. destruct (validate_rewrite rest) as [rest' errors] eqn:R. simpl in IH.
    destruct (rewrite_spec config) as [e|v] eqn:S; simpl.
    - destruct (validate_rewrite rest') as [rest'' errors'] eqn:R'. simpl in IH.
      rewrite S. simpl. congruence.
    - destruct (validate_rewrite rest') as [rest'' errors'] eqn:R'. simpl in IH.
      rewrite (rewrite_spec_fixed config v S). simpl. congruence. }
  split; [exact H | rewrite H; reflexivity].
Qed.

(** ** Properties of the error reducer *)

Definition descriptor_of (messages : list (string * string)) (kv : string * bool)
  : ErrorDescriptor :=
  {| code := "invalid_" ++ fst kv; err_message := Js.lookup messages (fst kv) |}.

(** The entries of a result map the reducer reports. *)
Definition reported (ignores : list string) (kv : string * bool) : bool :=
  negb (snd kv) && negb (Js.contains ignores (fst kv)).

Lemma extractErrors_fold (messages : list (string * string)) (ignores : list string)
    (result : ResultSet) (memo : list ErrorDescriptor) :
  fold_left
    (fun (memo : list ErrorDescriptor) (kv : string * bool) =>
       let '(key, valid) := kv in
       if negb valid && negb (Js.contains ignores key)
       then (memo ++ [{| code := "invalid_" ++ key; err_message := Js.lookup messages key |}])%list
       else memo)
    result memo
  = (memo ++ map (descriptor_of messages) (filter (reported ignores) result))%list.
Proof.
  revert memo. induction result as [|[key valid] result IH]; intros memo; simpl.
  - symmetry. apply app_nil_r.
  - rewrite IH. unfold reported at 2. simpl.
    destruct (negb valid && negb (Js.contains ignores key)); simpl.
    + rewrite <- app_assoc. reflexivity.
    + reflexivity.
Qed.

Lemma extractErrors_eq (result : ResultSet) (messages : list (string * string))
    (ignores : Ignores) :
  extractErrors result messages ignores
  = map (descriptor_of messages) (filter (reported (ignore_list ignores)) result).
Proof. unfold extractErrors. apply extractErrors_fold. Qed.

(** C9 (amended): [extractErrors] returns exactly one descriptor
    [{code: 'invalid_<property>', message: messages[property]}] per
    property whose value is false and which is not in the ignore set, in
    the result map's order; a property in the ignore set never appears in
    the output; a single non-array ignore value is treated as a
    one-element set when it is truthy (a non-empty name), and as the
    empty set when it is the empty string. *)
Theorem extractErrors_spec (result : ResultSet) (messages : list (string * string))
    (ignores : Ignores) :
  extractErrors result messages ignores
  = map (descriptor_of messages) (filter (reported (ignore_list ignores)) result) /\
  (forall name, In name (ignore_list ignores) ->
                ~ In ("invalid_" ++ name) (map code (extractErrors result messages ignores))) /\
  (forall name, name <> EmptyString ->
                extractErrors result messages (IgnName name)
                = extractErrors result messages (IgnArray [name])) /\
  extractErrors result messages (IgnName EmptyString)
  = extractErrors result messages (IgnArray []).
Proof.
  split; [apply extractErrors_eq|]. split; [|split].
  - intros name Hin Hcode. rewrite extractErrors_eq, map_map in Hcode.
    apply in_map_iff in Hcode. destruct Hcode as [[key valid] [Heq Hkv]].
    apply filter_In in Hkv. destruct Hkv as [_ Hrep].
    simpl in Heq. injection Heq as Heq. subst key.
    unfold reported in Hrep. simpl in Hrep.
    apply andb_true_iff in Hrep. destruct Hrep as [_ Hrep].
    apply negb_true_iff in Hrep.
    apply Js.contains_In in Hin. congruence.
  - intros name Hne. unfold extractErrors, ignore_list, Js.truthy_string.
    destruct (String.eqb_spec name EmptyString); [contradiction | reflexivity].
  - reflexivity.
Qed.

(** ** Properties of [validate] on rules that do not parse *)

(** The exceptions of the rules that fail to parse, in declaration order. *)
Definition parse_failures (validations : list ValidationSpec) : list PupilError :=
  flat_map (fun v => match pupil_parse (rule v) with
                     | inl e => [e]
                     | inr _ => []
                     end) validations.

Definition parse_error_log : Event := EvLogError "error parsing validation: %o".

Lemma validate_rewrite_errors (validations : list ValidationSpec) :
  snd (validate_rewrite validations) = parse_failures validations.
Proof.
  induction validations as [|config rest IH]; [reflexivity|].
  simpl. destruct (validate_rewrite rest) as [rest' errors]. simpl in IH.
  unfold rewrite_spec. destruct (pupil_parse (rule config)); simpl; congruence.
Qed.

Lemma log_parse_errors_run (errors : list PupilError) (w : World) :
  log_parse_errors errors w =
    (Returned tt,
     {| trace := trace w ++ repeat parse_error_log (List.length errors);
        results := results w |}).
Proof.
  revert w. induction errors as [|e errors IH]; intros w.
  - unfold log_parse_errors, ret. simpl. rewrite app_nil_r. destruct w; reflexivity.
  - cbn [log_parse_errors]. unfold bind, emit. rewrite IH. simpl.
    rewrite <- app_assoc. reflexivity.
Qed.

Lemma parse_failures_nonempty (validations : list ValidationSpec) :
  (exists v e, In v validations /\ pupil_parse (rule v) = inl e) ->
  parse_failures validations <> [].
Proof.
  intros [v [e [Hin Hp]]] Hnil. unfold parse_failures in Hnil.
  assert (I : In e (flat_map (fun v => match pupil_parse (rule v) with
                                       | inl e => [e]
                                       | inr _ => []
                                       end) validations)).
  { apply in_flat_map. exists v. split; [exact Hin|]. rewrite Hp. left. reflexivity. }
  rewrite Hnil in I. exact I.
Qed.

(** C6 (amended): when at least one rule fails to parse, [validate] hands
    its callback a list holding one error string per rule that failed to
    parse, in declaration order (a single-element list when exactly one
    rule fails); this happens once the rewriting loop is over, nothing
    but the error log lines of that loop has been emitted, the result set
    is untouched: no synchronous evaluation, no extra validator, no
    error reduction. *)
Theorem validate_parse_failure (doc : AttributeMap) (validations : list ValidationSpec)
    (ignores : Ignores) (w : World) :
  (exists v e, In v validations /\ pupil_parse (rule v) = inl e) ->
  parse_failures validations <> [] /\
  validate doc validations ignores w =
    (Returned (map (fun e => ErrString (pupil_error_string e)) (parse_failures validations)),
     {| trace := trace w ++ repeat parse_error_log (List.length (parse_failures validations));
        results := results w |}).
Proof.
  intros H. pose proof (parse_failures_nonempty validations H) as Hne.
  split; [exact Hne|].
  unfold validate. rewrite <- validate_rewrite_errors in *.
  destruct (validate_rewrite validations) as [vs errors]. simpl in *.
  unfold bind. rewrite log_parse_errors_run.
  destruct errors as [|e errors]; [contradiction | reflexivity].
Qed.

(** ** Properties of the orchestration *)

(** The validator invocations a trace records, oldest first. *)
Definition invocations (t : list Event) : list (string * string) :=
  flat_map (fun ev => match ev with
                      | EvInvoke name prop => [(name, prop)]
                      | _ => []
                      end) t.

(** The invocation a spec asks for: none without a (truthy) [funcName]. *)
Definition declared (v : ValidationSpec) : list (string * string) :=
  match funcName v with
  | Some name => if Js.truthy_string name then [(name, property v)] else []
  | None => []
  end.

(** A computation that leaves the result set alone and records no
    validator invocation. *)
Definition quiet {A : Type} (m : Eff A) : Prop :=
  forall w,
    results (snd (m w)) = results w /\
    exists evs, trace (snd (m w)) = (trace w ++ evs)%list /\ invocations evs = [].

Lemma invocations_app (t1 t2 : list Event) :
  invocations (t1 ++ t2) = (invocations t1 ++ invocations t2)%list.
Proof. apply flat_map_app. Qed.

Lemma quiet_ret {A : Type} (a : A) : quiet (ret a).
Proof. intros w. split; [reflexivity|]. exists []. rewrite app_nil_r. split; reflexivity. Qed.

Lemma quiet_throw {A : Type} (e : JsError) : quiet (@throw A e).
Proof. intros w. split; [reflexivity|]. exists []. rewrite app_nil_r. split; reflexivity. Qed.

Lemma quiet_emit (ev : Event) : invocations [ev] = [] -> quiet (emit ev).
Proof. intros H w. split; [reflexivity|]. exists [ev]. split; [reflexivity | exact H]. Qed.

Lemma quiet_bind {A B : Type} (m : Eff A) (k : A -> Eff B) :
  quiet m -> (forall a, quiet (k a)) -> quiet (bind m k).
Proof.
  intros Hm Hk w. unfold bind. destruct (Hm w) as [Hr [evs [Ht Hi]]].
  destruct (m w) as [[a|e] w1]; simpl in *.
  - destruct (Hk a w1) as [Hr' [evs' [Ht' Hi']]]. split; [congruence|].
    exists (evs ++ evs')%list. rewrite Ht', Ht, <- app_assoc. split; [reflexivity|].
    rewrite invocations_app, Hi, Hi'. reflexivity.
  - split; [exact Hr|]. exists evs. split; assumption.
Qed.

Lemma quiet_async_map {X Y : Type} (coll : list X) (iteratee : X -> Eff (JsError + Y)) :
  (forall x, quiet (iteratee x)) -> quiet (async_map coll iteratee).
Proof.
  intros H. induction coll as [|x rest IH]; simpl.
  - apply quiet_ret.
  - apply quiet_bind; [apply H|]. intros r.
    apply quiet_bind; [exact IH|]. intros rs. apply quiet_ret.
Qed.

Lemma quiet_executeExistsRequest (key : string) : quiet (_executeExistsRequest key).
Proof.
  unfold _executeExistsRequest. apply quiet_bind; [apply quiet_emit; reflexivity|].
  intros _. apply quiet_ret.
Qed.

Lemma quiet_exists (doc : AttributeMap) (fields : list string) (options : option ExistsOptions) :
  quiet (_exists doc fields options).
Proof.
  unfold _exists. destruct fields as [|f fields]; [apply quiet_ret|].
  apply quiet_bind; [apply quiet_async_map; apply quiet_executeExistsRequest|].
  intros [err|responses]; [apply quiet_ret|].
  destruct (_getIntersection responses) as [intersection|]; [|apply quiet_throw].
  destruct (filter (is_other_id doc) intersection) as [|id ids]; [apply quiet_ret|].
  apply quiet_bind; [apply quiet_emit; reflexivity|]. intros _.
  destruct (db_allDocs_error (id :: ids)); apply quiet_ret.
Qed.

Lemma quiet_log_if_error (err : option JsError) (name : string) :
  quiet (log_if_error err name).
Proof.
  destruct err; simpl; [apply quiet_emit; reflexivity | apply quiet_ret].
Qed.

Lemma quiet_validator (name : string) (validator : Validator)
    (doc : AttributeMap) (v : ValidationSpec) :
  extra_validations name = Some validator -> quiet (validator doc v).
Proof.
  unfold extra_validations. intros H.
  repeat match type of H with
         | (if ?c then _ else _) = _ => destruct c
         end; try discriminate; injection H as <-.
  - unfold unique. apply quiet_bind; [apply quiet_exists|]. intros r.
    apply quiet_bind; [apply quiet_log_if_error|]. intros _. apply quiet_ret.
  - unfold uniqueWithin. destruct (rev (funcArgs v)); [apply quiet_throw|].
    apply quiet_bind; [apply quiet_exists|]. intros r.
    apply quiet_bind; [apply quiet_log_if_error|]. intros _. apply quiet_ret.
  - unfold exists_. apply quiet_bind; [apply quiet_exists|]. intros r.
    apply quiet_bind; [apply quiet_log_if_error|]. intros _. apply quiet_ret.
  - unfold isISOWeek. destruct (_ || _).
    + apply quiet_bind; [apply quiet_emit; reflexivity|]. intros _. apply quiet_ret.
    + destruct (isValidISOWeek _ _); [apply quiet_ret|].
      apply quiet_bind; [apply quiet_emit; reflexivity|]. intros _. apply quiet_ret.
Qed.

(** The world once [EvInvoke] has been recorded for [v]. *)
Definition invoked_world (name : string) (v : ValidationSpec) (w : World) : World :=
  {| trace := trace w ++ [EvInvoke name (property v)]; results := results w |}.

(** The world once [result.results[property] = false] has run. *)
Definition downgraded (prop : string) (w : World) : World :=
  {| trace := trace w; results := Js.set (results w) prop false |}.

(** What one turn of the series does, case by case. *)
Inductive iteratee_case (attributes : AttributeMap) (v : ValidationSpec) (w : World)
  : Outcome (option JsError) * World -> Prop :=
| case_skip :
    declared v = [] ->
    iteratee_case attributes v w (Returned None, w)
| case_unknown name e :
    funcName v = Some name -> declared v = [(name, property v)] ->
    extra_validations name = None ->
    iteratee_case attributes v w (Threw e, w)
| case_threw name validator e w2 :
    funcName v = Some name -> declared v = [(name, property v)] ->
    extra_validations name = Some validator ->
    validator attributes v (invoked_world name v w) = (Threw e, w2) ->
    iteratee_case attributes v w (Threw e, w2)
| case_downgrade name validator err w2 :
    funcName v = Some name -> declared v = [(name, property v)] ->
    extra_validations name = Some validator ->
    validator attributes v (invoked_world name v w) = (Returned (err, Some false), w2) ->
    iteratee_case attributes v w (Returned err, downgraded (property v) w2)
| case_keep name validator err res w2 :
    funcName v = Some name -> declared v = [(name, property v)] ->
    extra_validations name = Some validator ->
    validator attributes v (invoked_world name v w) = (Returned (err, res), w2) ->
    res <> Some false ->
    iteratee_case attributes v w (Returned err, w2).

Lemma validate_iteratee_case (attributes : AttributeMap) (v : ValidationSpec) (w : World) :
  iteratee_case attributes v w (validate_iteratee attributes v w).
Proof.
  unfold validate_iteratee.
  destruct (funcName v) as [name|] eqn:Hf.
  2:{ apply case_skip. unfold declared. rewrite Hf. reflexivity. }
  destruct (Js.truthy_string name) eqn:Ht; simpl.
  2:{ apply case_skip. unfold declared. rewrite Hf, Ht. reflexivity. }
  assert (Hd : declared v = [(name, property v)])
    by (unfold declared; rewrite Hf, Ht; reflexivity).
  destruct (extra_validations name) as [validator|] eqn:Hx.
  2:{ eapply case_unknown; eauto. }
  unfold bind, emit. fold (invoked_world name v w).
  destruct (validator attributes v (invoked_world name v w)) as [[[err res]|e] w2] eqn:Hv.
  - simpl. destruct res as [[|]|].
    + unfold ret. eapply case_keep; eauto. discriminate.
    + unfold set_invalid. fold (downgraded (property v) w2).
      eapply case_downgrade; eauto.
    + unfold ret. eapply case_keep; eauto. discriminate.
  - eapply case_threw; eauto.
Qed.

Lemma lookup_set (m : ResultSet) (k k' : string) (b : bool) :
  Js.lookup (Js.set m k b) k' = if String.eqb k k' then Some b else Js.lookup m k'.
Proof.
  induction m as [|[k0 b0] m IH]; simpl.
  - reflexivity.
  - destruct (String.eqb_spec k0 k) as [->|Hk]; simpl.
    + destruct (String.eqb k k'); reflexivity.
    + rewrite IH. destruct (String.eqb_spec k0 k') as [->|Hk'].
      * destruct (String.eqb_spec k k'); [congruence | reflexivity].
      * reflexivity.
Qed.

(** [after] differs from [before] only by entries set to [false]. *)
Definition only_downgraded (before after : ResultSet) : Prop :=
  forall prop,
    (Js.lookup before prop = Some false -> Js.lookup after prop = Some false) /\
    (Js.lookup after prop = Js.lookup before prop \/ Js.lookup after prop = Some false).

(** No extra validator run for a spec of [validations] that targets
    [prop] ever answers [false]. *)
Definition never_false (attributes : AttributeMap) (validations : list ValidationSpec)
    (prop : string) : Prop :=
  forall v name validator w1 r w2,
    In v validations -> property v = prop -> funcName v = Some name ->
    extra_validations name = Some validator ->
    validator attributes v w1 = (Returned r, w2) ->
    snd r <> Some false.

Lemma only_downgraded_refl (r : ResultSet) : only_downgraded r r.
Proof. intros prop. split; [intros H; exact H | left; reflexivity]. Qed.

Lemma only_downgraded_trans (r1 r2 r3 : ResultSet) :
  only_downgraded r1 r2 -> only_downgraded r2 r3 -> only_downgraded r1 r3.
Proof.
  intros H12 H23 prop. destruct (H12 prop) as [A1 B1]. destruct (H23 prop) as [A2 B2].
  split; [intros H; apply A2, A1, H|].
  destruct B2 as [B2|B2]; [rewrite B2; exact B1 | right; exact B2].
Qed.

Lemma only_downgraded_set (r : ResultSet) (k : string) :
  only_downgraded r (Js.set r k false).
Proof.
  intros prop. rewrite lookup_set.
  destruct (String.eqb k prop); [|split; [intros H; exact H | left; reflexivity]].
  split; [reflexivity | right; reflexivity].
Qed.

(** One turn of the series: the result set is only downgraded, and it is
    untouched at [prop] unless the validator of a spec on [prop] answered
    [false]. *)
Lemma validate_iteratee_results (attributes : AttributeMap) (v : ValidationSpec) (w : World) :
  only_downgraded (results w) (results (snd (validate_iteratee attributes v w))) /\
  forall prop, never_false attributes [v] prop ->
               Js.lookup (results (snd (validate_iteratee attributes v w))) prop
               = Js.lookup (results w) prop.
Proof.
  destruct (validate_iteratee_case attributes v w)
    as [Hd | name e Hf Hd Hx | name validator e w2 Hf Hd Hx Hv
        | name validator err w2 Hf Hd Hx Hv | name validator err res w2 Hf Hd Hx Hv Hres];
    simpl.
  - split; [apply only_downgraded_refl | reflexivity].
  - split; [apply only_downgraded_refl | reflexivity].
  - destruct (quiet_validator name validator attributes v Hx (invoked_world name v w)) as [Hr _].
    rewrite Hv in Hr. simpl in Hr. rewrite Hr.
    split; [apply only_downgraded_refl | reflexivity].
  - destruct (quiet_validator name validator attributes v Hx (invoked_world name v w)) as [Hr _].
    rewrite Hv in Hr. simpl in Hr. rewrite Hr.
    split; [apply only_downgraded_set|].
    intros prop Hnever. rewrite lookup_set.
    destruct (String.eqb_spec (property v) prop) as [Hp|Hp]; [|reflexivity].
    exfalso.
    apply (Hnever v name validator (invoked_world name v w) (err, Some false) w2);
      simpl; auto.
  - destruct (quiet_validator name validator attributes v Hx (invoked_world name v w)) as [Hr _].
    rewrite Hv in Hr. simpl in Hr. rewrite Hr.
    split; [apply only_downgraded_refl | reflexivity].
Qed.

Lemma never_false_cons (attributes : AttributeMap) (v : ValidationSpec)
    (rest : list ValidationSpec) (prop : string) :
  never_false attributes (v :: rest) prop ->
  never_false attributes [v] prop /\ never_false attributes rest prop.
Proof.
  intros H. split; intros v' name validator w1 r w2 Hin; apply H.
  - destruct Hin as [<-|[]]. left. reflexivity.
  - right. exact Hin.
Qed.

Lemma eachSeries_results (attributes : AttributeMap) (validations : list ValidationSpec)
    (w : World) :
  only_downgraded (results w)
    (results (snd (eachSeries validations (validate_iteratee attributes) w))) /\
  forall prop, never_false attributes validations prop ->
               Js.lookup (results (snd (eachSeries validations (validate_iteratee attributes) w))) prop
               = Js.lookup (results w) prop.
Proof.
  revert w. induction validations as [|v rest IH]; intros w.
  - simpl. split; [apply only_downgraded_refl | reflexivity].
  - cbn [eachSeries]. unfold bind.
    destruct (validate_iteratee_results attributes v w) as [Hstep Hkeep].
    destruct (validate_iteratee attributes v w) as [[[e|]|e] w1]; simpl in *.
    + split; [exact Hstep|]. intros prop Hn. apply Hkeep.
      apply (never_false_cons _ _ _ _ Hn).
    + destruct (IH w1) as [Hrest Hkeep']. split.
      * eapply only_downgraded_trans; eassumption.
      * intros prop Hn. apply never_false_cons in Hn. destruct Hn as [Hn1 Hn2].
        rewrite (Hkeep' prop Hn2). apply Hkeep. exact Hn1.
    + split; [exact Hstep|]. intros prop Hn. apply Hkeep.
      apply (never_false_cons _ _ _ _ Hn).
Qed.

(** The world in which the series starts: the synchronous evaluation has
    been requested and [result] holds what it returned. *)
Definition sync_world (sync : ResultSet) (w : World) : World :=
  {| trace := trace w ++ [EvPupilValidate]; results := sync |}.

(** [validate] on rules that all parse and a rule set the grammar engine
    accepts: whatever the series hands to its final callback, the
    callback of [validate] receives the descriptors read off the result
    set as the series left it. *)
Lemma validate_run (doc : AttributeMap) (validations : list ValidationSpec)
    (ignores : Ignores) (w : World) (sync : ResultSet) :
  parse_failures validations = [] ->
  pupil_validate (getRules (fst (validate_rewrite validations))) (attributes_of doc) = inr sync ->
  validate doc validations ignores w =
    match eachSeries (fst (validate_rewrite validations))
                     (validate_iteratee (attributes_of doc)) (sync_world sync w) with
    | (Returned _, w') =>
        (Returned (map ErrDescriptor
                       (extractErrors (results w')
                          (getMessages (fst (validate_rewrite validations)) (getLocale doc))
                          ignores)),
         w')
    | (Threw e, w') => (Threw e, w')
    end.
Proof.
  intros Hp Hs. unfold validate. rewrite <- validate_rewrite_errors in Hp.
  destruct (validate_rewrite validations) as [vs errors]. simpl in *. subst errors.
  unfold bind at 1. rewrite log_parse_errors_run. simpl. rewrite app_nil_r.
  unfold bind at 1. unfold emit at 1. cbn [trace results].
  rewrite Hs. unfold bind at 1. unfold put_results at 1. cbn [trace results].
  fold (sync_world sync w). unfold bind at 1.
  destruct (eachSeries vs (validate_iteratee (attributes_of doc)) (sync_world sync w))
    as [[err|e] w']; reflexivity.
Qed.

(** C2: the orchestration only ever writes [false] into the result set.
    For every call of [validate] that reaches the series (the rules parse
    and the synchronous evaluation returned [sync]) and every property:
    a property the synchronous evaluation set to [false] is [false] at the
    end; the final value is the synchronous one or [false]; and a
    property whose extra validators never answer [false] (they answer
    [true], or fail) keeps its synchronous value. *)
Theorem validate_only_downgrades (doc : AttributeMap) (validations : list ValidationSpec)
    (ignores : Ignores) (w : World) (sync : ResultSet) (prop : string) :
  parse_failures validations = [] ->
  pupil_validate (getRules (fst (validate_rewrite validations))) (attributes_of doc) = inr sync ->
  (Js.lookup sync prop = Some false ->
     Js.lookup (results (snd (validate doc validations ignores w))) prop = Some false) /\
  (Js.lookup (results (snd (validate doc validations ignores w))) prop = Js.lookup sync prop \/
   Js.lookup (results (snd (validate doc validations ignores w))) prop = Some false) /\
  (never_false (attributes_of doc) (fst (validate_rewrite validations)) prop ->
     Js.lookup (results (snd (validate doc validations ignores w))) prop = Js.lookup sync prop).
Proof.
  intros Hp Hs. rewrite (validate_run doc validations ignores w sync Hp Hs).
  destruct (eachSeries_results (attributes_of doc) (fst (validate_rewrite validations))
              (sync_world sync w)) as [Hd Hk].
  assert (E : results (snd
                match eachSeries (fst (validate_rewrite validations))
                        (validate_iteratee (attributes_of doc)) (sync_world sync w) with
                | (Returned _, w') =>
                    (Returned (map ErrDescriptor
                                 (extractErrors (results w')
                                    (getMessages (fst (validate_rewrite validations)) (getLocale doc))
                                    ignores)), w')
                | (Threw e, w') => (Threw e, w')
                end)
              = results (snd (eachSeries (fst (validate_rewrite validations))
                                (validate_iteratee (attributes_of doc)) (sync_world sync w)))).
  { destruct (eachSeries _ _ _) as [[?|?] ?]; reflexivity. }
  rewrite E. destruct (Hd prop) as [H1 H2]. simpl in H1, H2.
  split; [exact H1 | split; [exact H2 | apply Hk]].
Qed.



(** ** Properties of the shared existence check *)

(** The key looked up for [field]: [<field>:<lower-cased value>]. *)
Definition freetext_key (doc : AttributeMap) (field : string) : string :=
  field ++ ":" ++ Js.to_string (lowerCaseString (Js.get doc field)).


(** The ids the view holds under [key] (none when the request fails). *)
Definition rows_of (key : string) : list string :=
  match db_query key with
  | inr rows => rows
  | inl _ => []
  end.





Lemma fold_filter_In (rs : list (list string)) (l : list string) (id : string) :
  In id (fold_left
           (fun ids response => filter (fun id => existsb (String.eqb id) response) ids)
           rs l)
  <-> In id l /\ forall r, In r rs -> In id r.
Proof.
  revert l. induction rs as [|r rs IH]; intros l; simpl.
  - split; [intros H; split; [exact H | intros r []] | intros [H _]; exact H].
  - rewrite IH, filter_In. split.
    + intros [[Hl Hr] Hrs]. split; [exact Hl|].
      intros r' [<-|Hin]; [|apply Hrs; exact Hin].
      apply existsb_exists in Hr. destruct Hr as [x [Hx Heq]].
      apply String.eqb_eq in Heq. subst x. exact Hx.
    + intros [Hl Hall]. split; [split; [exact Hl|] | intros r' Hin; apply Hall; right; exact Hin].
      apply existsb_exists. exists id. split; [apply Hall; left; reflexivity | apply String.eqb_refl].
Qed.

(** [_getIntersection] keeps the ids present in every response. *)
Lemma getIntersection_spec (responses : list (list string)) :
  responses <> [] ->
  exists intersection,
    _getIntersection responses = Some intersection /\
    forall id, In id intersection <-> forall r, In r responses -> In id r.
Proof.
  intros Hne. unfold _getIntersection.
  destruct (rev responses) as [|last_response others] eqn:R.
  - apply (f_equal (@rev _)) in R. rewrite rev_involutive in R. contradiction.
  - eexists. split; [reflexivity|]. intros id. rewrite fold_filter_In.
    assert (E : responses = (rev others ++ [last_response])%list).
    { rewrite <- (rev_involutive responses), R. reflexivity. }
    rewrite E. split.
    + intros [Hl Hall] r Hin. apply in_app_or in Hin.
      destruct Hin as [Hin|[<-|[]]]; [apply Hall; exact Hin | exact Hl].
    + intros H. split; [apply H; apply in_or_app; right; left; reflexivity|].
      intros r Hin. apply H. apply in_or_app. left. exact Hin.
Qed.


Lemma is_other_id_false (doc : AttributeMap) (id : string) :
  is_other_id doc id = false <-> Js.get doc "_id" = JStr id.
Proof.
  unfold is_other_id. destruct (Js.get doc "_id") as [| |b|n|own|props];
    try (split; discriminate).
  rewrite negb_false_iff, String.eqb_eq. split; [intros ->; reflexivity | congruence].
Qed.



Lemma requestOptions_no_filter (doc : AttributeMap) (fields : list string)
    (start : option jsnum) :
  requestOptions_of doc fields {| additionalFilter := None; startDate := start |}
  = map (freetext_key doc) fields.
Proof. unfold requestOptions_of. simpl. apply app_nil_r. Qed.


(** ** Properties of [isISOWeek] *)




Lemma isValidISOWeek_iff (week year : jsval) :
  isValidISOWeek week year = true <->
  JsString.test_digits 1 2 (Js.to_string week) = true /\
  JsString.test_digits 4 4 (Js.to_string year) = true /\
  exists n y, Js.to_number week = Some n /\ Js.to_number year = Some y /\
              1 <= n <= Moment.isoWeeksInYear y.
Proof.
  unfold isValidISOWeek, Js.leb, Js.geb. rewrite !andb_true_iff.
  destruct (Js.to_number week) as [n|]; destruct (Js.to_number year) as [y|]; simpl.
  - rewrite !Z.leb_le. split.
    + intros [[[A B] C] D]. repeat split; try assumption. exists n, y. auto.
    + intros [A [B [n' [y' [Hn [Hy [C D]]]]]]]. injection Hn as <-. injection Hy as <-. auto.
  - split; [intros [_ D]; discriminate | intros [_ [_ [n' [y' [_ [Hy _]]]]]]; discriminate].
  - split; [intros [[_ C] _]; discriminate | intros [_ [_ [n' [y' [Hn _]]]]]; discriminate].
  - split; [intros [[_ C] _]; discriminate | intros [_ [_ [n' [y' [Hn _]]]]]; discriminate].
Qed.

(** *** Reading a field as a week or a year

    The contract speaks of digit strings and of their numeric value.
    These are defined here on the characters themselves, apart from the
    pattern tests and the conversions of the module. *)













(** *** Numbers in decimal *)















(** ** The empty field list *)

Definition error_log (name : string) : Event :=
  EvLogError ("Error running " ++ Js.quoted name ++ " validation: %o").

Lemma bind_assoc {A B C : Type} (m : Eff A) (k : A -> Eff B) (k' : B -> Eff C) (w : World) :
  bind (bind m k) k' w = bind m (fun a => bind (k a) k') w.
Proof. unfold bind. destruct (m w) as [[a|e] w1]; reflexivity. Qed.

Lemma emit_then_quiet {A : Type} (ev : Event) (k : unit -> Eff A) (w : World) :
  (forall u, quiet (k u)) ->
  exists evs, trace (snd (bind (emit ev) k w)) = (trace w ++ ev :: evs)%list.
Proof.
  intros H. unfold bind, emit.
  destruct (H tt {| trace := trace w ++ [ev]; results := results w |}) as [_ [evs [Ht _]]].
  exists evs. rewrite Ht. simpl. rewrite <- app_assoc. reflexivity.
Qed.

Ltac quiet_step :=
  first [ apply quiet_ret | apply quiet_throw | apply quiet_log_if_error
        | apply quiet_executeExistsRequest
        | apply quiet_emit; reflexivity
        | apply quiet_async_map; intros ?
        | apply quiet_bind; [|intros ?]
        | match goal with
          | |- quiet (match ?x with _ => _ end) => destruct x
          end ].

(** The [exists] validator always sends a first lookup, on the key of its
    second argument. *)
Lemma exists_always_queries (doc : AttributeMap) (v : ValidationSpec) (w : World) :
  exists evs,
    trace (snd (exists_ doc v w))
    = (trace w ++ EvQuery (freetext_key doc (Js.prop_key (nth_error (funcArgs v) 1))) :: evs)%list.
Proof.
  unfold exists_, _exists. cbn [requestOptions_of map app async_map additionalFilter].
  unfold _executeExistsRequest at 1.
  rewrite bind_assoc. rewrite bind_assoc. rewrite bind_assoc.
  apply emit_then_quiet. intros u. repeat quiet_step.
Qed.

(** C10 (amended): the shared existence check called with an empty field
    list hands the error [No arguments provided to exists validation
    function] to its callback, with no boolean, and sends no datastore
    request: the world is the one it started in.  This is what happens
    for [unique] on a spec whose [funcArgs] is empty and for
    [uniqueWithin] with only a duration argument; each logs the error and
    hands it to its own callback together with [true]. *)
Theorem exists_no_arguments (doc : AttributeMap) (v : ValidationSpec) (w : World) :
  (forall options,
      _exists doc [] options w = (Returned (Some no_arguments_error, None), w)) /\
  (funcArgs v = [] ->
   unique doc v w =
     (Returned (Some no_arguments_error, Some true),
      {| trace := trace w ++ [error_log "unique"]; results := results w |})) /\
  (forall duration,
      funcArgs v = [duration] ->
      uniqueWithin doc v w =
        (Returned (Some no_arguments_error, Some true),
         {| trace := trace w ++ [error_log "uniqueWithin"]; results := results w |})).
Proof.
  split; [|split].
  - intros options. reflexivity.
  - intros H. unfold unique. rewrite H. reflexivity.
  - intros duration H. unfold uniqueWithin. rewrite H. reflexivity.
Qed.

(** ** Further properties: objects built by the module *)

Lemma lookup_set_any {V : Type} (m : list (string * V)) (k k' : string) (x : V) :
  Js.lookup (Js.set m k x) k' = if String.eqb k k' then Some x else Js.lookup m k'.
Proof.
  induction m as [|[k0 x0] m IH]; simpl.
  - reflexivity.
  - destruct (String.eqb_spec k0 k) as [->|Hk]; simpl.
    + destruct (String.eqb k k'); reflexivity.
    + rewrite IH. destruct (String.eqb_spec k0 k') as [->|Hk'].
      * destruct (String.eqb_spec k k'); [congruence | reflexivity].
      * reflexivity.
Qed.

Lemma set_keys {V : Type} (m : list (string * V)) (k : string) (x : V) :
  map fst (Js.set m k x) = if Js.has m k then map fst m else (map fst m ++ [k])%list.
Proof.
  induction m as [|[k0 x0] m IH]; simpl.
  - reflexivity.
  - destruct (String.eqb_spec k0 k) as [->|Hk]; simpl.
    + reflexivity.
    + rewrite IH. destruct (Js.has m k); reflexivity.
Qed.

Lemma has_In {V : Type} (m : list (string * V)) (k : string) :
  Js.has m k = true <-> In k (map fst m).
Proof.
  induction m as [|[k0 x0] m IH]; simpl.
  - split; [discriminate | intros []].
  - rewrite orb_true_iff, String.eqb_eq, IH. reflexivity.
Qed.

Lemma set_NoDup {V : Type} (m : list (string * V)) (k : string) (x : V) :
  NoDup (map fst m) -> NoDup (map fst (Js.set m k x)).
Proof.
  intros H. rewrite set_keys. destruct (Js.has m k) eqn:E; [exact H|].
  apply NoDup_app; [exact H | repeat constructor; intros [] |].
  intros a Ha [<-|[]]. apply has_In in Ha. congruence.
Qed.

Lemma lookup_None_not_In {V : Type} (m : list (string * V)) (k : string) :
  ~ In k (map fst m) -> Js.lookup m k = None.
Proof.
  induction m as [|[k0 x0] m IH]; simpl; [reflexivity|].
  intros H. destruct (String.eqb_spec k0 k) as [->|_].
  - exfalso. apply H. left. reflexivity.
  - apply IH. intros Hin. apply H. right. exact Hin.
Qed.

(** [_.extend(obj, source)] on a source with distinct keys: the source's
    value where it has the key, the old value elsewhere. *)
Lemma lookup_extend {V : Type} (source obj : list (string * V)) (k : string) :
  NoDup (map fst source) ->
  Js.lookup (Js.extend obj source) k
  = match Js.lookup source k with
    | Some x => Some x
    | None => Js.lookup obj k
    end.
Proof.
  unfold Js.extend. revert obj.
  induction source as [|[k0 x0] source IH]; intros obj Hnd; simpl; [reflexivity|].
  inversion Hnd as [|? ? Hnotin Hnd']; subst.
  rewrite (IH _ Hnd'), lookup_set_any.
  destruct (String.eqb_spec k0 k) as [->|_]; [|reflexivity].
  rewrite (lookup_None_not_In source k Hnotin). reflexivity.
Qed.

(** The flattened attribute map: a key of [doc.fields] shadows the
    top-level key of the same name; every other key reads as on [doc].
    Objects have distinct keys. *)
Theorem attributes_of_get (doc : AttributeMap) (k : string) :
  NoDup (map fst doc) ->
  (forall fields, Js.get doc "fields" = JObj fields -> NoDup (map fst fields)) ->
  Js.get (attributes_of doc) k
  = match Js.get doc "fields" with
    | JObj fields =>
        match Js.lookup fields k with
        | Some x => x
        | None => Js.get doc k
        end
    | _ => Js.get doc k
    end.
Proof.
  intros Hdoc Hfields. unfold attributes_of.
  assert (Base : Js.get (Js.extend [] doc) k = Js.get doc k).
  { unfold Js.get. rewrite (lookup_extend doc [] k Hdoc).
    destruct (Js.lookup doc k); reflexivity. }
  destruct (Js.get doc "fields") as [| |b|n|str|fields] eqn:F; try exact Base.
  unfold Js.get in *. rewrite (lookup_extend fields _ k (Hfields fields eq_refl)).
  destruct (Js.lookup fields k); [reflexivity | exact Base].
Qed.

Lemma find_append {A : Type} (f : A -> bool) (l1 l2 : list A) :
  find f (l1 ++ l2) = match find f l1 with
                      | Some x => Some x
                      | None => find f l2
                      end.
Proof.
  induction l1 as [|a l1 IH]; simpl; [reflexivity|].
  destruct (f a); [reflexivity | exact IH].
Qed.

(** A map built by a reduce that assigns [memo[property] = value v] for
    the specs passing [keep]: the last such spec with a given property
    decides the entry, and the keys are distinct. *)
Lemma reduce_set_lookup (keep : ValidationSpec -> bool) (value : ValidationSpec -> string)
    (validations : list ValidationSpec) (memo : list (string * string)) (prop : string) :
  Js.lookup
    (fold_left (fun memo v => if keep v then Js.set memo (property v) (value v) else memo)
               validations memo) prop
  = match find (fun v => keep v && String.eqb (property v) prop) (rev validations) with
    | Some v => Some (value v)
    | None => Js.lookup memo prop
    end.
Proof.
  revert memo. induction validations as [|v rest IH]; intros memo; simpl; [reflexivity|].
  rewrite IH, find_append.
  destruct (find (fun v0 => keep v0 && String.eqb (property v0) prop) (rev rest));
    [reflexivity|].
  simpl. destruct (keep v); simpl; [|reflexivity].
  rewrite lookup_set_any. destruct (String.eqb (property v) prop); reflexivity.
Qed.

Lemma reduce_set_NoDup (keep : ValidationSpec -> bool) (value : ValidationSpec -> string)
    (validations : list ValidationSpec) (memo : list (string * string)) :
  NoDup (map fst memo) ->
  NoDup (map fst
           (fold_left (fun memo v => if keep v then Js.set memo (property v) (value v) else memo)
                      validations memo)).
Proof.
  revert memo. induction validations as [|v rest IH]; intros memo H; simpl; [exact H|].
  apply IH. destruct (keep v); [apply set_NoDup; exact H | exact H].
Qed.

(** Whether [getRules] takes the spec: it has a property and a rule. *)
Definition has_rule (v : ValidationSpec) : bool :=
  Js.truthy_string (property v) && Js.truthy_string (rule v).

(** Whether [getMessages] takes the spec: it has a property and a message
    or a translation key. *)
Definition has_message (v : ValidationSpec) : bool :=
  Js.truthy_string (property v) &&
  (match message v with Some _ => true | None => false end
   || truthy_opt_string (translation_key v)).

(** [getRules]: the rule filed under a property is that of the last spec
    with that property and a rule; no property is filed twice; specs
    without a property or without a rule are left out. *)
Theorem getRules_last_wins (validations : list ValidationSpec) (prop : string) :
  Js.lookup (getRules validations) prop
  = option_map rule
      (find (fun v => has_rule v && String.eqb (property v) prop) (rev validations)) /\
  NoDup (map fst (getRules validations)) /\
  (Js.lookup (getRules validations) prop <> None <->
   exists v, In v validations /\ property v = prop /\ has_rule v = true).
Proof.
  assert (L : Js.lookup (getRules validations) prop
              = option_map rule
                  (find (fun v => has_rule v && String.eqb (property v) prop)
                        (rev validations))).
  { etransitivity; [exact (reduce_set_lookup has_rule rule validations [] prop)|].
    destruct (find _ _); reflexivity. }
  split; [exact L|]. split.
  - exact (reduce_set_NoDup has_rule rule validations [] (NoDup_nil _)).
  - rewrite L. split.
    + destruct (find _ _) as [v|] eqn:F; [|intros H; exfalso; apply H; reflexivity].
      intros _. apply find_some in F. destruct F as [Hin Hv].
      apply andb_true_iff in Hv. destruct Hv as [Hk Hp]. apply String.eqb_eq in Hp.
      exists v. split; [apply in_rev; exact Hin | split; assumption].
    + intros [v [Hin [Hp Hk]]].
      destruct (find _ _) as [v'|] eqn:F; [discriminate|].
      apply in_rev in Hin. pose proof (find_none _ _ F v Hin) as N.
      cbv beta in N. rewrite Hk, Hp, String.eqb_refl in N. discriminate N.
Qed.

(** [getMessages]: the message filed under a property is the localized
    message of the last spec with that property and a message or a
    translation key; a property none of whose specs has either has no
    entry, so its error descriptor carries no message. *)
Theorem getMessages_last_wins (validations : list ValidationSpec) (locale : Locale)
    (prop : string) :
  Js.lookup (getMessages validations locale) prop
  = option_map (fun v => getMessage v locale)
      (find (fun v => has_message v && String.eqb (property v) prop) (rev validations)) /\
  NoDup (map fst (getMessages validations locale)) /\
  ((forall v, In v validations -> property v = prop -> has_message v = false) ->
   Js.lookup (getMessages validations locale) prop = None).
Proof.
  assert (L : Js.lookup (getMessages validations locale) prop
              = option_map (fun v => getMessage v locale)
                  (find (fun v => has_message v && String.eqb (property v) prop)
                        (rev validations))).
  { etransitivity;
      [exact (reduce_set_lookup has_message (fun v => getMessage v locale) validations [] prop)|].
    destruct (find _ _); reflexivity. }
  split; [exact L|]. split.
  - exact (reduce_set_NoDup has_message (fun v => getMessage v locale) validations []
             (NoDup_nil _)).
  - intros H. rewrite L.
    destruct (find _ _) as [v|] eqn:F; [|reflexivity].
    apply find_some in F. destruct F as [Hin Hv].
    apply andb_true_iff in Hv. destruct Hv as [Hk Hp]. apply String.eqb_eq in Hp.
    rewrite (H v) in Hk; [discriminate | apply in_rev; exact Hin | exact Hp].
Qed.

(** ** Further properties: the existence check and its callers *)

Lemma filter_filter {A : Type} (f g : A -> bool) (l : list A) :
  filter f (filter g l) = filter (fun x => g x && f x) l.
Proof.
  induction l as [|a l IH]; simpl; [reflexivity|].
  destruct (g a); simpl; [destruct (f a); simpl; congruence | exact IH].
Qed.

Lemma fold_filter_forallb (rs : list (list string)) (l : list string) :
  fold_left (fun ids response => filter (fun id => existsb (String.eqb id) response) ids) rs l
  = filter (fun id => forallb (fun response => existsb (String.eqb id) response) rs) l.
Proof.
  revert l. induction rs as [|r rs IH]; intros l; simpl.
  - induction l as [|a l IHl]; simpl; congruence.
  - rewrite IH, filter_filter. reflexivity.
Qed.

(** [_getIntersection]: the ids of the last response that occur in every
    other response, in the order (and with the repetitions) of the last
    response; on no response at all it throws. *)
Theorem getIntersection_filters_last (others : list (list string)) (last_response : list string) :
  _getIntersection (others ++ [last_response])
  = Some (filter (fun id => forallb (fun response => existsb (String.eqb id) response) others)
                 last_response) /\
  _getIntersection [] = None.
Proof.
  split; [|reflexivity].
  unfold _getIntersection. rewrite rev_app_distr. cbn [rev app].
  rewrite rev_involutive, fold_filter_forallb. reflexivity.
Qed.

(** The error of the first lookup, in list order, that the datastore fails. *)
Fixpoint first_error (keys : list string) : option JsError :=
  match keys with
  | [] => None
  | key :: rest =>
      match db_query key with
      | inl e => Some e
      | inr _ => first_error rest
      end
  end.

Lemma async_map_run (keys : list string) (w : World) :
  async_map keys _executeExistsRequest w =
    (Returned (match first_error keys with
               | Some e => inl e
               | None => inr (map rows_of keys)
               end),
     {| trace := trace w ++ map EvQuery keys; results := results w |}).
Proof.
  revert w. induction keys as [|key keys IH]; intros w.
  - simpl. unfold ret. rewrite app_nil_r. destruct w; reflexivity.
  - assert (E : _executeExistsRequest key w =
                  (Returned (db_query key),
                   {| trace := trace w ++ [EvQuery key]; results := results w |}))
      by reflexivity.
    cbn [async_map first_error]. unfold bind at 1. rewrite E.
    unfold bind at 1. rewrite IH. unfold ret. cbn [trace results map].
    rewrite <- app_assoc. unfold rows_of.
    destruct (db_query key) as [e|rows]; [reflexivity|].
    destruct (first_error keys); reflexivity.
Qed.

(** The lookup key of the [exists] validator's form filter. *)
Definition form_key (v : ValidationSpec) : string :=
  toLowerCase ("form:" ++ Js.prop_key (nth_error (funcArgs v) 0)).

(** The field the [exists] validator looks up. *)
Definition exists_field (v : ValidationSpec) : string :=
  Js.prop_key (nth_error (funcArgs v) 1).

(** A failed view request: every lookup of the check has been sent, no
    document is fetched, the validator logs one error line and hands the
    datastore's error to its callback -- [unique] together with [true],
    [exists] with no boolean at all. *)
Theorem query_failure_propagates (doc : AttributeMap) (v : ValidationSpec) (w : World)
    (e : JsError) :
  (funcArgs v <> [] ->
   first_error (map (freetext_key doc) (funcArgs v)) = Some e ->
   unique doc v w =
     (Returned (Some e, Some true),
      {| trace := trace w ++ map EvQuery (map (freetext_key doc) (funcArgs v))
                          ++ [error_log "unique"];
         results := results w |})) /\
  (first_error [freetext_key doc (exists_field v); form_key v] = Some e ->
   exists_ doc v w =
     (Returned (Some e, None),
      {| trace := trace w ++ [EvQuery (freetext_key doc (exists_field v));
                              EvQuery (form_key v); error_log "exists"];
         results := results w |})).
Proof.
  split.
  - intros Hne He. unfold unique, _exists.
    destruct (funcArgs v) as [|f fs] eqn:Hargs; [contradiction|].
    unfold bind at 1. unfold bind at 1. rewrite async_map_run.
    rewrite requestOptions_no_filter, He. unfold ret at 1.
    unfold bind, log_if_error, emit, ret, error_log. cbn [fst snd trace results js_not].
    rewrite <- app_assoc. reflexivity.
  - intros He. unfold exists_, _exists.
    unfold bind at 1. unfold bind at 1. rewrite async_map_run.
    change (requestOptions_of doc [Js.prop_key (nth_error (funcArgs v) 1)]
              {| additionalFilter := Some ("form:" ++ Js.prop_key (nth_error (funcArgs v) 0));
                 startDate := None |})
      with [freetext_key doc (exists_field v); form_key v].
    rewrite He. unfold ret at 1.
    unfold bind, log_if_error, emit, ret, error_log. cbn [fst snd trace results map].
    rewrite <- app_assoc. reflexivity.
Qed.



(** The existence check on a non-empty field list, step by step: the
    lookups, the intersection without the document's own id, and the fetch
    of the documents that remain. *)
Lemma exists_run (doc : AttributeMap) (fields : list string) (options : ExistsOptions)
    (w : World) :
  fields <> [] ->
  _exists doc fields (Some options) w =
    let keys := requestOptions_of doc fields options in
    let queried := {| trace := trace w ++ map EvQuery keys; results := results w |} in
    match first_error keys with
    | Some e => (Returned (Some e, None), queried)
    | None =>
        match _getIntersection (map rows_of keys) with
        | None => (Threw (TypeError "Cannot read property 'rows' of undefined"), queried)
        | Some intersection =>
            match filter (is_other_id doc) intersection with
            | [] => (Returned (None, Some false), queried)
            | (_ :: _) as ids =>
                let fetched := {| trace := trace queried ++ [EvAllDocs ids];
                                  results := results w |} in
                match db_allDocs_error ids with
                | Some err => (Returned (Some err, None), fetched)
                | None =>
                    (Returned (None,
                               Some (existsb (fun d => no_errors d && in_window options d)
                                             (map db_doc ids))),
                     fetched)
                end
            end
        end
    end.
Proof.
  intros Hne. unfold _exists. destruct fields as [|f fs]; [contradiction|].
  unfold bind at 1. rewrite async_map_run. cbv zeta.
  destruct (first_error _); [reflexivity|].
  destruct (_getIntersection _) as [intersection|]; [|reflexivity].
  destruct (filter (is_other_id doc) intersection) as [|id ids]; [reflexivity|].
  unfold bind, emit. cbn [trace results].
  destruct (db_allDocs_error (id :: ids)); reflexivity.
Qed.







Lemma getIntersection_some (responses : list (list string)) :
  responses <> [] -> _getIntersection responses <> None.
Proof.
  intros Hne. destruct (getIntersection_spec responses Hne) as [i [Hi _]]. congruence.
Qed.

Lemma existsb_weaker {A : Type} (f g : A -> bool) (l : list A) :
  (forall x, g x = true -> f x = true) ->
  negb (existsb f l) = true -> negb (existsb g l) = true.
Proof.
  intros H. rewrite !negb_true_iff. intros Hf.
  destruct (existsb g l) eqn:Hg; [|reflexivity].
  apply existsb_exists in Hg. destruct Hg as [x [Hin Hx]].
  assert (T : existsb f l = true) by (apply existsb_exists; exists x; auto).
  congruence.
Qed.

(** With and without a window the check sends the same requests; the
    window can only remove matches. *)
Lemma exists_window_weaker (doc : AttributeMap) (fields : list string) (start : jsnum)
    (w : World) :
  match _exists doc fields None w,
        _exists doc fields (Some {| additionalFilter := None; startDate := Some start |}) w with
  | (Returned r1, w1), (Returned r2, w2) =>
      fst r1 = fst r2 /\ w1 = w2 /\ (js_not (snd r1) = true -> js_not (snd r2) = true)
  | (Threw e1, w1), (Threw e2, w2) => e1 = e2 /\ w1 = w2
  | _, _ => False
  end.
Proof.
  destruct fields as [|f fs].
  - simpl. auto.
  - change (_exists doc (f :: fs) None)
      with (_exists doc (f :: fs) (Some {| additionalFilter := None; startDate := None |})).
    rewrite !exists_run by discriminate. cbv zeta.
    rewrite !requestOptions_no_filter.
    destruct (first_error _); [simpl; auto|].
    destruct (_getIntersection _) as [intersection|]; [|auto].
    destruct (filter (is_other_id doc) intersection) as [|id ids]; [simpl; auto|].
    destruct (db_allDocs_error (id :: ids)); [simpl; auto|].
    cbn [fst snd js_not]. split; [reflexivity | split; [reflexivity|]].
    apply existsb_weaker. intros d Hd.
    apply andb_true_iff in Hd. destruct Hd as [Hd _]. rewrite Hd. reflexivity.
Qed.

(** [uniqueWithin] is the weaker test: on the same fields, in the same
    world, whenever [unique] hands [true] to its callback (with or without
    an error) so does [uniqueWithin], whatever the duration. *)
Theorem uniqueWithin_weaker (doc : AttributeMap) (v v' : ValidationSpec) (duration : string)
    (w : World) (e : option JsError) :
  funcArgs v' = (funcArgs v ++ [duration])%list ->
  fst (unique doc v w) = Returned (e, Some true) ->
  fst (uniqueWithin doc v' w) = Returned (e, Some true).
Proof.
  intros Hargs. unfold unique, uniqueWithin.
  rewrite Hargs, rev_app_distr. cbn [rev app]. rewrite rev_involutive.
  pose proof (exists_window_weaker doc (funcArgs v)
                (moment_subtract_valueOf (_parseDuration duration)) w) as H.
  unfold bind.
  destruct (_exists doc (funcArgs v) None w) as [[r1|e1] w1];
    destruct (_exists doc (funcArgs v) _ w) as [[r2|e2] w2]; try contradiction.
  - destruct H as [He [Hw Hn]]. subst w2.
    destruct (log_if_error (fst r1) "unique" w1) as [[u|e1] w1'] eqn:L1.
    2:{ destruct (fst r1); discriminate L1. }
    destruct (log_if_error (fst r2) "uniqueWithin" w1) as [[u'|e2] w2'] eqn:L2.
    2:{ destruct (fst r2); discriminate L2. }
    unfold ret. cbn [fst]. intros Hu. injection Hu as H1 H2.
    rewrite <- He, H1, (Hn H2). reflexivity.
  - discriminate.
Qed.

(** ** Further properties: [validate] as a whole *)

Lemma validate_rewrite_unchanged (validations : list ValidationSpec) :
  (forall v, In v validations ->
             exists entities, pupil_parse (rule v) = inr entities /\
                              registered_subs entities = []) ->
  validate_rewrite validations = (validations, []).
Proof.
  induction validations as [|v rest IH]; intros H; [reflexivity|].
  cbn [validate_rewrite]. rewrite IH by (intros v' Hin; apply H; right; exact Hin).
  destruct (H v (or_introl eq_refl)) as [entities [Hp Hs]].
  rewrite (rewrite_spec_registered_subs v entities Hp), Hs. reflexivity.
Qed.

Lemma eachSeries_skip (attributes : AttributeMap) (validations : list ValidationSpec)
    (w : World) :
  (forall v, In v validations -> funcName v = None) ->
  eachSeries validations (validate_iteratee attributes) w = (Returned None, w).
Proof.
  induction validations as [|v rest IH]; intros H; [reflexivity|].
  cbn [eachSeries]. unfold bind. unfold validate_iteratee at 1.
  rewrite (H v (or_introl eq_refl)). unfold ret at 1.
  apply IH. intros v' Hin. apply H. right. exact Hin.
Qed.

(** A list of specs none of which calls an extra validator: the specs are
    left as given, the only effect is the synchronous evaluation, and the
    callback receives exactly the reduction of what that evaluation
    returned -- no datastore request, no change to the result set. *)
Theorem validate_without_extra_validators (doc : AttributeMap)
    (validations : list ValidationSpec) (ignores : Ignores) (w : World) (sync : ResultSet) :
  (forall v, In v validations ->
             exists entities, pupil_parse (rule v) = inr entities /\
                              registered_subs entities = []) ->
  (forall v, In v validations -> funcName v = None) ->
  pupil_validate (getRules validations) (attributes_of doc) = inr sync ->
  validate_rewrite validations = (validations, []) /\
  validate doc validations ignores w =
    (Returned (map ErrDescriptor
                   (extractErrors sync (getMessages validations (getLocale doc)) ignores)),
     sync_world sync w).
Proof.
  intros Hparse Hnone Hsync.
  pose proof (validate_rewrite_unchanged validations Hparse) as Hrw.
  split; [exact Hrw|].
  assert (Hpf : parse_failures validations = [])
    by (rewrite <- validate_rewrite_errors, Hrw; reflexivity).
  assert (Hfst : fst (validate_rewrite validations) = validations)
    by (rewrite Hrw; reflexivity).
  rewrite (validate_run doc validations ignores w sync Hpf);
    [|rewrite Hfst; exact Hsync].
  rewrite Hfst, (eachSeries_skip _ _ _ Hnone). reflexivity.
Qed.

(** The synchronous evaluation throwing: the callback receives the single
    string built from the exception; no extra validator has run and the
    result set is untouched. *)
Theorem validate_evaluation_failure (doc : AttributeMap) (validations : list ValidationSpec)
    (ignores : Ignores) (w : World) (e : PupilError) :
  parse_failures validations = [] ->
  pupil_validate (getRules (fst (validate_rewrite validations))) (attributes_of doc) = inl e ->
  validate doc validations ignores w =
    (Returned [ErrString (pupil_error_string e)],
     {| trace := trace w ++ [EvPupilValidate]; results := results w |}).
Proof.
  intros Hp He. unfold validate. rewrite <- validate_rewrite_errors in Hp.
  destruct (validate_rewrite validations) as [vs errors]. simpl in *. subst errors.
  unfold bind at 1. rewrite log_parse_errors_run. simpl. rewrite app_nil_r.
  unfold bind at 1. unfold emit at 1. cbn [trace results].
  rewrite He. reflexivity.
Qed.

(** ** Further properties: what the rewriter keeps *)

(** What the rewriter never touches on a spec, and how far it changes the
    property: by appending only. *)
Definition kept (v v' : ValidationSpec) : Prop :=
  rule v' = rule v /\ message v' = message v /\ translation_key v' = translation_key v /\
  exists t, property v' = property v ++ t.

(** A spec the series can run: it calls no extra validator, or one of the
    registry, its property being the recorded field followed by
    [_<funcName>]. *)
Definition dispatchable (v : ValidationSpec) : Prop :=
  funcName v = None \/
  exists name f,
    funcName v = Some name /\ In name names /\ extra_validations name <> None /\
    field v = Some f /\ property v = f ++ "_" ++ name /\
    JsString.endsWith (property v) ("_" ++ name) = true.

Lemma kept_refl (v : ValidationSpec) : kept v v.
Proof.
  repeat split. exists EmptyString. symmetry. apply JsString.append_empty_r.
Qed.

Lemma kept_trans (v1 v2 v3 : ValidationSpec) : kept v1 v2 -> kept v2 v3 -> kept v1 v3.
Proof.
  intros [R1 [M1 [T1 [t1 P1]]]] [R2 [M2 [T2 [t2 P2]]]].
  repeat split; try congruence.
  exists (t1 ++ t2). rewrite P2, P1. apply string_app_assoc.
Qed.

Lemma rewrite_sub_kept (v : ValidationSpec) (e : SubEntity) : kept v (rewrite_sub v e).
Proof.
  unfold rewrite_sub. destruct (e_funcName e) as [name|]; [|apply kept_refl].
  destruct (0 <=? _); [|apply kept_refl].
  destruct (_ =? -1); [|apply kept_refl].
  repeat split. exists ("_" ++ name). reflexivity.
Qed.

Lemma fold_rewrite_sub_kept (subs : list SubEntity) (v : ValidationSpec) :
  kept v (fold_left rewrite_sub subs v).
Proof.
  revert v. induction subs as [|e subs IH]; intros v; simpl; [apply kept_refl|].
  eapply kept_trans; [apply rewrite_sub_kept | apply IH].
Qed.

Lemma endsWith_refl (s : string) : JsString.endsWith s s = true.
Proof. destruct s; simpl; [reflexivity|]. rewrite Ascii.eqb_refl, String.eqb_refl. reflexivity. Qed.

Lemma endsWith_app (s pat : string) : JsString.endsWith (s ++ pat) pat = true.
Proof.
  induction s as [|c s IH]; [apply endsWith_refl|].
  cbn [append JsString.endsWith]. rewrite IH. apply orb_true_r.
Qed.

Lemma names_registered (name : string) : In name names -> extra_validations name <> None.
Proof.
  intros [<-|[<-|[<-|[<-|[]]]]]; discriminate.
Qed.

Lemma rewrite_sub_dispatchable (v : ValidationSpec) (e : SubEntity) :
  dispatchable v -> dispatchable (rewrite_sub v e).
Proof.
  intros H. unfold rewrite_sub. destruct (e_funcName e) as [name|]; [|exact H].
  destruct (0 <=? Js.array_indexOf names name 0) eqn:Hreg; [|exact H].
  destruct (_ =? -1); [|exact H].
  right. exists name, (property v). cbn [funcName field property].
  assert (Hin : In name names).
  { apply Z.leb_le in Hreg. apply (Js.array_indexOf_In names name 0); [lia | exact Hreg]. }
  repeat split; try reflexivity.
  - exact Hin.
  - apply names_registered. exact Hin.
  - apply endsWith_app.
Qed.

Lemma fold_rewrite_sub_dispatchable (subs : list SubEntity) (v : ValidationSpec) :
  dispatchable v -> dispatchable (fold_left rewrite_sub subs v).
Proof.
  revert v. induction subs as [|e subs IH]; intros v H; simpl; [exact H|].
  apply IH. apply rewrite_sub_dispatchable. exact H.
Qed.

(** The rewriting loop keeps the list's length and order, and on every
    spec the rule, the message and the translation key; the property is
    the given one, possibly with suffixes appended.  A spec given without
    [funcName] comes out calling no extra validator or one that the
    registry holds, with [field] and [property] in step. *)
Theorem validate_rewrite_keeps (validations : list ValidationSpec) :
  Forall2 (fun v v' => kept v v' /\ (funcName v = None -> dispatchable v'))
          validations (fst (validate_rewrite validations)).
Proof.
  induction validations as [|config rest IH]; [constructor|].
  cbn [validate_rewrite]. destruct (validate_rewrite rest) as [rest' errors].
  cbn [fst] in IH. unfold rewrite_spec.
  destruct (pupil_parse (rule config)) as [e|entities]; cbn [fst].
  - constructor; [|exact IH]. split; [apply kept_refl | intros H; left; exact H].
  - constructor; [|exact IH]. rewrite fold_rewrite_entity_flat. split.
    + apply fold_rewrite_sub_kept.
    + intros H. apply fold_rewrite_sub_dispatchable. left. exact H.
Qed.

(** ** [_formatParam] *)

Definition quote_char : ascii := ascii_of_nat 34.

Definition backslash_char : ascii := ascii_of_nat 92.

(** [s.replace] of every double quote (the global pattern) by the empty
    string. *)
Fixpoint remove_quotes (s : string) : string :=
  match s with
  | EmptyString => EmptyString
  | String c s' =>
      if Ascii.eqb c quote_char then remove_quotes s' else String c (remove_quotes s')
  end.

(** [s.replace] of every double quote by a backslash and a double quote. *)
Fixpoint escape_quotes (s : string) : string :=
  match s with
  | EmptyString => EmptyString
  | String c s' =>
      if Ascii.eqb c quote_char
      then String backslash_char (String quote_char (escape_quotes s'))
      else String c (escape_quotes s')
  end.

Definition _formatParam (name : string) (value : jsval) : string :=
  let name := remove_quotes name in
  match value with
  | JStr str => name ++ ":" ++ Js.dq ++ escape_quotes str ++ Js.dq
  | JNum _ => name ++ "<int>:" ++ Js.to_string value
  | _ => name ++ ":" ++ Js.to_string value
  end.

Fixpoint has_char (c : ascii) (s : string) : bool :=
  match s with
  | EmptyString => false
  | String d s' => Ascii.eqb d c || has_char c s'
  end.

(** Whether [s] holds a double quote that no backslash precedes;
    [escaped] tells whether the character before [s] is a backslash. *)
Fixpoint has_bare_quote (escaped : bool) (s : string) : bool :=
  match s with
  | EmptyString => false
  | String c s' =>
      if Ascii.eqb c quote_char then negb escaped || has_bare_quote false s'
      else has_bare_quote (Ascii.eqb c backslash_char) s'
  end.

Lemma remove_quotes_clean (s : string) : has_char quote_char (remove_quotes s) = false.
Proof.
  induction s as [|c s IH]; simpl; [reflexivity|].
  destruct (Ascii.eqb c quote_char) eqn:E; [exact IH|].
  simpl. rewrite E. exact IH.
Qed.

Lemma remove_quotes_id (s : string) : has_char quote_char s = false -> remove_quotes s = s.
Proof.
  induction s as [|c s IH]; simpl; [reflexivity|].
  intros H. apply orb_false_iff in H. destruct H as [H1 H2].
  rewrite H1, (IH H2). reflexivity.
Qed.

Lemma escape_quotes_id (s : string) : has_char quote_char s = false -> escape_quotes s = s.
Proof.
  induction s as [|c s IH]; simpl; [reflexivity|].
  intros H. apply orb_false_iff in H. destruct H as [H1 H2].
  rewrite H1, (IH H2). reflexivity.
Qed.

Lemma escape_quotes_no_bare (s : string) (escaped : bool) :
  has_bare_quote escaped (escape_quotes s) = false.
Proof.
  revert escaped. induction s as [|c s IH]; intros escaped; simpl; [reflexivity|].
  destruct (Ascii.eqb c quote_char) eqn:E.
  - cbn [has_bare_quote].
    change (Ascii.eqb backslash_char quote_char) with false.
    change (Ascii.eqb backslash_char backslash_char) with true.
    change (Ascii.eqb quote_char quote_char) with true.
    cbn [negb orb]. apply IH.
  - cbn [has_bare_quote]. rewrite E. apply IH.
Qed.

Lemma list_ascii_of_string_app (a b : string) :
  list_ascii_of_string (a ++ b) = (list_ascii_of_string a ++ list_ascii_of_string b)%list.
Proof. induction a as [|c a IH]; simpl; [reflexivity|]. rewrite IH. reflexivity. Qed.

Lemma remove_quotes_filter (s : string) :
  list_ascii_of_string (remove_quotes s)
  = filter (fun c => negb (Ascii.eqb c quote_char)) (list_ascii_of_string s).
Proof.
  induction s as [|c s IH]; simpl; [reflexivity|].
  destruct (Ascii.eqb c quote_char); simpl; rewrite IH; reflexivity.
Qed.

Lemma escape_quotes_flat_map (s : string) :
  list_ascii_of_string (escape_quotes s)
  = flat_map (fun c => if Ascii.eqb c quote_char then [backslash_char; quote_char] else [c])
             (list_ascii_of_string s).
Proof.
  induction s as [|c s IH]; simpl; [reflexivity|].
  destruct (Ascii.eqb c quote_char); simpl; rewrite IH; reflexivity.
Qed.

(** [_formatParam] on a string value, character by character: the name
    without its double quotes -- every other character kept, in order --
    then a colon, then between two double quotes the value with a
    backslash put before each of its double quotes.  No double quote of
    the value is left without a backslash before it, and a name and a
    value that hold no double quote are used as they are. *)
Theorem formatParam_quoting (name value : string) :
  list_ascii_of_string (_formatParam name (JStr value))
  = (filter (fun c => negb (Ascii.eqb c quote_char)) (list_ascii_of_string name)
     ++ [":"%char; quote_char]
     ++ flat_map (fun c => if Ascii.eqb c quote_char then [backslash_char; quote_char] else [c])
                 (list_ascii_of_string value)
     ++ [quote_char])%list /\
  (forall body,
      _formatParam name (JStr value) = remove_quotes name ++ ":" ++ Js.dq ++ body ++ Js.dq ->
      has_bare_quote false body = false) /\
  (has_char quote_char name = false -> has_char quote_char value = false ->
   _formatParam name (JStr value) = name ++ ":" ++ Js.dq ++ value ++ Js.dq).
Proof.
  split; [|split].
  - unfold _formatParam.
    rewrite !list_ascii_of_string_app, remove_quotes_filter, escape_quotes_flat_map.
    reflexivity.
  - intros body H. unfold _formatParam in H.
    assert (E : list_ascii_of_string body = list_ascii_of_string (escape_quotes value)).
    { apply (f_equal list_ascii_of_string) in H.
      rewrite !list_ascii_of_string_app in H.
      apply app_inv_head in H. apply app_inv_head in H. apply app_inv_head in H.
      apply app_inv_tail in H. symmetry. exact H. }
    apply (f_equal string_of_list_ascii) in E.
    rewrite !string_of_list_ascii_of_string in E. subst body.
    apply escape_quotes_no_bare.
  - intros Hn Hv. unfold _formatParam.
    rewrite (remove_quotes_id name Hn), (escape_quotes_id value Hv). reflexivity.
Qed.

(** ** [_parseDuration] *)

Lemma split_acc_no_sep (sep : ascii) (a cur : string) :
  has_char sep a = false -> JsString.split_acc sep a cur = [cur ++ a].
Proof.
  revert cur. induction a as [|c a IH]; intros cur H; simpl.
  - rewrite JsString.append_empty_r. reflexivity.
  - simpl in H. apply orb_false_iff in H. destruct H as [H1 H2].
    rewrite H1, (IH _ H2), string_app_assoc. reflexivity.
Qed.

Lemma split_acc_first (sep : ascii) (a b cur : string) :
  has_char sep a = false ->
  JsString.split_acc sep (a ++ String sep b) cur
  = (cur ++ a) :: JsString.split_acc sep b EmptyString.
Proof.
  revert cur. induction a as [|c a IH]; intros cur H; simpl.
  - rewrite Ascii.eqb_refl, JsString.append_empty_r. reflexivity.
  - simpl in H. apply orb_false_iff in H. destruct H as [H1 H2].
    rewrite H1, (IH _ H2), string_app_assoc. reflexivity.
Qed.

(** [_parseDuration]: the amount is read off the text before the first
    space and the unit is the text between the first and the second space;
    without a space the unit is [undefined]; whatever follows a second
    space is ignored. *)
Theorem parseDuration_parts (amount unit rest : string) :
  has_char " "%char amount = false ->
  has_char " "%char unit = false ->
  _parseDuration amount = moment_duration (parseInt amount) None /\
  _parseDuration (amount ++ " " ++ unit) = moment_duration (parseInt amount) (Some unit) /\
  _parseDuration (amount ++ " " ++ unit ++ " " ++ rest)
  = moment_duration (parseInt amount) (Some unit).
Proof.
  intros Ha Hu. unfold _parseDuration, JsString.split. split; [|split].
  - rewrite (split_acc_no_sep _ _ _ Ha). reflexivity.
  - change (amount ++ " " ++ unit) with (amount ++ String " "%char unit).
    rewrite (split_acc_first _ _ _ _ Ha), (split_acc_no_sep _ _ _ Hu). reflexivity.
  - change (amount ++ " " ++ unit ++ " " ++ rest)
      with (amount ++ String " "%char (unit ++ String " "%char rest)).
    rewrite (split_acc_first _ _ _ _ Ha), (split_acc_first _ _ _ _ Hu). reflexivity.
Qed.

(** ** Further properties of [isISOWeek] *)

Lemma is_digit_value (c : ascii) :
  JsString.is_digit c = true -> 0 <= Z.of_nat (nat_of_ascii c) - 48 <= 9.
Proof.
  unfold JsString.is_digit. intros H. apply andb_true_iff in H. destruct H as [H1 H2].
  apply Nat.leb_le in H1. apply Nat.leb_le in H2. lia.
Qed.

Lemma digits_value_bounds (s : string) (acc : Z) :
  JsString.all_digits s = true -> 0 <= acc ->
  acc * 10 ^ Z.of_nat (String.length s) <= JsString.digits_value_acc s acc
  <= acc * 10 ^ Z.of_nat (String.length s) + 10 ^ Z.of_nat (String.length s) - 1.
Proof.
  revert acc. induction s as [|c s IH]; intros acc Hd Hacc.
  - simpl. lia.
  - cbn [JsString.all_digits] in Hd. apply andb_true_iff in Hd. destruct Hd as [Hc Hs].
    pose proof (is_digit_value c Hc) as Hv.
    cbn [JsString.digits_value_acc String.length].
    specialize (IH (10 * acc + (Z.of_nat (nat_of_ascii c) - 48)) Hs ltac:(lia)).
    rewrite Nat2Z.inj_succ, Z.pow_succ_r by lia.
    assert (P : 0 < 10 ^ Z.of_nat (String.length s)) by (apply Z.pow_pos_nonneg; lia).
    nia.
Qed.

Lemma test_digits_spec (lo hi : nat) (s : string) :
  JsString.test_digits lo hi s = true ->
  JsString.all_digits s = true /\ (lo <= String.length s <= hi)%nat.
Proof.
  unfold JsString.test_digits. rewrite !andb_true_iff, !Nat.leb_le. intros [[A B] C]. auto.
Qed.

Lemma digit_string_to_number (lo hi : nat) (s : string) :
  (1 <= lo)%nat -> JsString.test_digits lo hi s = true ->
  Js.to_number (JStr s) = Some (JsString.digits_value_acc s 0).
Proof.
  intros Hlo H. apply test_digits_spec in H. destruct H as [Hd [Hl _]].
  unfold Js.to_number. rewrite Hd.
  destruct s; [simpl in Hl; lia | reflexivity].
Qed.

Lemma lookup_has {V : Type} (m : list (string * V)) (k : string) (x : V) :
  Js.lookup m k = Some x -> Js.has m k = true.
Proof.
  induction m as [|[k0 x0] m IH]; simpl; [discriminate|].
  destruct (String.eqb k0 k); [reflexivity | exact IH].
Qed.

(** [isISOWeek] on a document with a one- or two-digit week string and a
    four-digit year string: the weeks 1 to 52 are valid whatever the year
    (nothing is logged), week 0 and the weeks from 54 on never are; only
    week 53 depends on the year. *)
Theorem isISOWeek_weeks (doc : AttributeMap) (v : ValidationSpec) (w : World)
    (weekField yearField week year : string) :
  funcArgs v = [weekField; yearField] ->
  yearField <> EmptyString ->
  Js.lookup doc weekField = Some (JStr week) ->
  Js.lookup doc yearField = Some (JStr year) ->
  JsString.test_digits 1 2 week = true ->
  JsString.test_digits 4 4 year = true ->
  (1 <= JsString.digits_value_acc week 0 <= 52 ->
   isISOWeek doc v w = (Returned (None, Some true), w)) /\
  (JsString.digits_value_acc week 0 = 0 \/ 54 <= JsString.digits_value_acc week 0 ->
   fst (isISOWeek doc v w) = Returned (None, Some false)).
Proof.
  intros Hargs Hyf Hweek Hyear Hw Hy.
  assert (Hyn : yearFieldName_of v = Some yearField).
  { unfold yearFieldName_of, Js.truthy_string. rewrite Hargs. simpl.
    destruct (String.eqb_spec yearField EmptyString); [contradiction | reflexivity]. }
  assert (Hrun : isISOWeek doc v w =
                 if isValidISOWeek (JStr week) (JStr year)
                 then ret (None, Some true) w
                 else bind (emit (EvLogError
                         "isISOWeek validation failed: the number of week is greater than the maximum"))
                        (fun _ => ret (None, Some false)) w).
  { unfold isISOWeek. rewrite Hyn, Hargs. cbn [nth_error Js.prop_key].
    rewrite (lookup_has _ _ _ Hweek), (lookup_has _ _ _ Hyear). cbn [negb orb].
    unfold Js.get. rewrite Hweek, Hyear.
    destruct (isValidISOWeek (JStr week) (JStr year)); reflexivity. }
  pose proof (digit_string_to_number 1 2 week (le_n 1) Hw) as Nw.
  pose proof (digit_string_to_number 4 4 year ltac:(lia) Hy) as Ny.
  assert (Weeks : 52 <= Moment.isoWeeksInYear (JsString.digits_value_acc year 0) <= 53).
  { destruct (test_digits_spec _ _ _ Hy) as [Hd Hl].
    pose proof (digits_value_bounds year 0 Hd (Z.le_refl 0)) as B.
    assert (L : String.length year = 4%nat) by lia. rewrite L in B.
    change (10 ^ Z.of_nat 4) with 10000 in B.
    destruct (Moment.isoWeeksInYear_52_53 (JsString.digits_value_acc year 0)) as [[E|E] _];
      lia. }
  rewrite Hrun. split.
  - intros Hrange.
    assert (V : isValidISOWeek (JStr week) (JStr year) = true).
    { apply isValidISOWeek_iff. split; [exact Hw | split; [exact Hy|]].
      eexists. eexists. split; [exact Nw | split; [exact Ny | lia]]. }
    rewrite V. reflexivity.
  - intros Hout.
    assert (V : isValidISOWeek (JStr week) (JStr year) = false).
    { destruct (isValidISOWeek (JStr week) (JStr year)) eqn:E; [|reflexivity].
      apply isValidISOWeek_iff in E. destruct E as [_ [_ [n [y [Hn [Hy' Hr]]]]]].
      rewrite Nw in Hn. rewrite Ny in Hy'. injection Hn as <-. injection Hy' as <-. lia. }
    rewrite V. reflexivity.
Qed.

(** ** Further properties: short cuts and the ignore list *)

(** No candidate left: when every id returned by all the lookups is the
    document's own, the check answers false right after the lookups and
    fetches no document. *)
Theorem exists_no_candidates (doc : AttributeMap) (fields : list string)
    (options : ExistsOptions) (w : World) :
  fields <> [] ->
  first_error (requestOptions_of doc fields options) = None ->
  (forall id,
      (forall key, In key (requestOptions_of doc fields options) -> In id (rows_of key)) ->
      Js.get doc "_id" = JStr id) ->
  _exists doc fields (Some options) w =
    (Returned (None, Some false),
     {| trace := trace w ++ map EvQuery (requestOptions_of doc fields options);
        results := results w |}).
Proof.
  intros Hne Hq Hown. rewrite (exists_run doc fields options w Hne). cbv zeta. rewrite Hq.
  assert (Hresp : map rows_of (requestOptions_of doc fields options) <> []).
  { destruct fields as [|f fs]; [contradiction|]. unfold requestOptions_of. simpl. discriminate. }
  destruct (getIntersection_spec _ Hresp) as [intersection [Hi Hin]]. rewrite Hi.
  destruct (filter (is_other_id doc) intersection) as [|id ids] eqn:F; [reflexivity|].
  exfalso.
  assert (I : In id (filter (is_other_id doc) intersection)) by (rewrite F; left; reflexivity).
  apply filter_In in I. destruct I as [Iin Io].
  assert (Hid : Js.get doc "_id" = JStr id).
  { apply Hown. intros key Hk. apply (proj1 (Hin id) Iin). apply in_map. exact Hk. }
  apply is_other_id_false in Hid. congruence.
Qed.

Lemma string_length_append (a b : string) :
  String.length (a ++ b) = (String.length a + String.length b)%nat.
Proof. induction a as [|c a IH]; simpl; [reflexivity | rewrite IH; reflexivity]. Qed.

(** Ignoring the field a validator was declared on does not silence the
    validator: the result set files its outcome under the rewritten
    property [<field>_<funcName>], and only that name, given in the ignore
    list, keeps the descriptor out. *)
Theorem ignoring_field_keeps_validator_error (result : ResultSet)
    (messages : list (string * string)) (f name : string) :
  In (f ++ "_" ++ name, false) result ->
  In (descriptor_of messages (f ++ "_" ++ name, false))
     (extractErrors result messages (IgnArray [f])) /\
  ~ In ("invalid_" ++ f ++ "_" ++ name)
       (map code (extractErrors result messages (IgnArray [f ++ "_" ++ name]))).
Proof.
  intros Hin. split.
  - rewrite extractErrors_eq. apply in_map. apply filter_In. split; [exact Hin|].
    unfold reported. cbn [fst snd negb andb ignore_list].
    destruct (Js.contains [f] (f ++ "_" ++ name)) eqn:C; [|reflexivity].
    apply Js.contains_In in C. destruct C as [C|[]].
    apply (f_equal String.length) in C. rewrite string_length_append in C.
    simpl in C. lia.
  - rewrite extractErrors_eq, map_map. intros Hc.
    apply in_map_iff in Hc. destruct Hc as [[key valid] [Heq Hkv]].
    apply filter_In in Hkv. destruct Hkv as [_ Hrep].
    simpl in Heq. injection Heq as Heq.
    unfold reported in Hrep. cbn [fst snd ignore_list] in Hrep.
    apply andb_true_iff in Hrep. destruct Hrep as [_ Hrep].
    apply negb_true_iff in Hrep.
    assert (T : Js.contains [f ++ "_" ++ name] key = true)
      by (apply Js.contains_In; left; symmetry; exact Heq).
    congruence.
Qed.

End Validation.

(** ** Runs on concrete inputs *)

Module Scenarios.

(** A grammar engine small enough to run.  It knows a handful of rules:
    calls of extra validators, the rule [fail] that evaluates to false,
    and two rules it cannot parse. *)
Definition call (name : string) (args : list string) : list Entity :=
  [{| sub := [{| e_funcName := Some name; e_funcArgs := args |}] |}].

Definition parse (rule : string) : string + list Entity :=
  if String.eqb rule "unique('patient_id')" then inr (call "unique" ["patient_id"])
  else if String.eqb rule "unique('my_unique_id')" then inr (call "unique" ["my_unique_id"])
  else if String.eqb rule "uniqueWithin('patient_id','7 days')"
       then inr (call "uniqueWithin" ["patient_id"; "7 days"])
  else if String.eqb rule "exists()" then inr (call "exists" [])
  else if String.eqb rule "isISOWeek('week','year')" then inr (call "isISOWeek" ["week"; "year"])
  else if String.eqb rule "(" then inl "unexpected end of rule"
  else if String.eqb rule ")" then inl "unexpected token"
  else inr [{| sub := [] |}].

Definition evaluate (rules : list (string * string)) (_ : AttributeMap)
  : string + ResultSet :=
  inr (map (fun kr => (fst kr, negb (String.eqb (snd kr) "fail"))) rules).

Definition message_of (v : ValidationSpec) (_ : unit) : string :=
  match message v with
  | Some ((content, _) :: _) => content
  | _ => EmptyString
  end.

(** A clock on 2 November 2026, durations in days only. *)
Definition now : Z := 1793577600000.

Definition days_before_now (d : jsnum * option string) : jsnum :=
  option_map (fun n => now - n * 86400000) (fst d).

Definition parse_digits (s : string) : jsnum :=
  if JsString.all_digits s then Some (JsString.digits_value_acc s 0) else None.

(** The pipeline over a given datastore. *)
Definition run (db_query : string -> JsError + list string) (db_doc : string -> StoredDoc)
    (doc : AttributeMap) (validations : list ValidationSpec) (ignores : Ignores)
  : Eff (list ErrorEntry) :=
  validate string (fun e => e) parse evaluate unit (fun _ => tt) message_of
           db_query db_doc (fun _ => None) 2026
           (jsnum * option string)%type parse_digits pair days_before_now JsString.toLowerCase_ascii
           doc validations ignores.

Definition spec (prop rule text : string) : ValidationSpec :=
  {| property := prop; rule := rule; message := Some [(text, "en")];
     translation_key := None; funcName := None; funcArgs := []; field := None |}.

Definition w0 : World := {| trace := []; results := [] |}.

(** A datastore that fails every view request. *)
Definition db_down (_ : string) : JsError + list string := inl (Error "db down").

(** A datastore holding, besides the document [d1] under validation,
    [d2] (error-free, reported yesterday), [d3] (with a recorded error)
    and [d4] (error-free, reported eight days ago); all share
    [patient_id] ["x"], and [d2] has [patient_id] ["y"] as well. *)
Definition db_query (key : string) : JsError + list string :=
  if String.eqb key "patient_id:x" then inr ["d1"; "d3"; "d4"]
  else if String.eqb key "patient_id:y" then inr ["d2"]
  else inr [].

Definition db_doc (id : string) : StoredDoc :=
  if String.eqb id "d3"
  then {| sd_errors := Some ["sys.missing_fields"]; sd_reported_date := Some (now - 3600000) |}
  else if String.eqb id "d4"
  then {| sd_errors := Some []; sd_reported_date := Some (now - 8 * 86400000) |}
  else {| sd_errors := None; sd_reported_date := Some (now - 86400000) |}.

Definition doc_x : AttributeMap :=
  [("_id", JStr "d1"); ("name", JStr ""); ("fields", JObj [("patient_id", JStr "X")])].

Definition doc_y : AttributeMap :=
  [("_id", JStr "d1"); ("patient_id", JStr "Y")].

Definition rules_3 : list ValidationSpec :=
  [ spec "name" "fail" "Name is required.";
    spec "patient_id" "unique('patient_id')" "Patient ID must be unique.";
    spec "week" "isISOWeek('week','year')" "Not a week." ].

(** The rewriter on [rules_3]. *)
Example rewrite_rules_3 :
  map property (fst (validate_rewrite string parse rules_3))
  = ["name"; "patient_id_unique"; "week_isISOWeek"].
Proof. reflexivity. Qed.

(** End to end: no other matching document. *)
Example validate_unique_ok :
  fst (run (fun _ => inr []) db_doc doc_y
           [spec "patient_id" "unique('patient_id')" "Patient ID must be unique."]
           (IgnArray []) w0)
  = Returned [].
Proof. reflexivity. Qed.

(** End to end: one other, error-free document with the same value. *)
Example validate_unique_duplicate :
  fst (run db_query db_doc doc_y
           [spec "patient_id" "unique('patient_id')" "Patient ID must be unique."]
           (IgnArray []) w0)
  = Returned [ErrDescriptor {| code := "invalid_patient_id_unique";
                               err_message := Some "Patient ID must be unique." |}].
Proof. reflexivity. Qed.

(** The only matches of ["x"] are the document itself, an errored one and
    one eight days old: [unique] sees the old one, [uniqueWithin] with
    seven days does not. *)
Example validate_unique_old_duplicate :
  fst (run db_query db_doc doc_x
           [spec "patient_id" "unique('patient_id')" "Patient ID must be unique."]
           IgnUndefined w0)
  = Returned [ErrDescriptor {| code := "invalid_patient_id_unique";
                               err_message := Some "Patient ID must be unique." |}] /\
  fst (run db_query db_doc doc_x
           [spec "patient_id" "uniqueWithin('patient_id','7 days')" "Seen this week."]
           IgnUndefined w0)
  = Returned [].
Proof. split; reflexivity. Qed.

Example isISOWeek_53_2015 :
  fst (isISOWeek 2026 [("week", JStr "53"); ("year", JStr "2015")]
         {| property := "week_isISOWeek"; rule := "isISOWeek('week','year')";
            message := None; translation_key := None; funcName := Some "isISOWeek";
            funcArgs := ["week"; "year"]; field := Some "week" |} w0)
  = Returned (None, Some true).
Proof. reflexivity. Qed.

Example isISOWeek_53_2016 :
  fst (isISOWeek 2026 [("week", JStr "53"); ("year", JStr "2016")]
         {| property := "week_isISOWeek"; rule := "isISOWeek('week','year')";
            message := None; translation_key := None; funcName := Some "isISOWeek";
            funcArgs := ["week"; "year"]; field := Some "week" |} w0)
  = Returned (None, Some false).
Proof. reflexivity. Qed.

Definition unique_patient_id : ValidationSpec :=
  spec "patient_id" "unique('patient_id')" "Patient ID must be unique.".

Definition unique_call (args : list string) : SubEntity :=
  {| e_funcName := Some "unique"; e_funcArgs := args |}.

(** C1: what the code does when an extra validator reports an error.
    With the datastore failing the lookup of [unique], the series ends
    at that validator ([isISOWeek], declared after it, is not invoked)
    and the error is logged; yet the callback of [validate] receives the
    descriptors of the fields already found invalid -- here
    [invalid_name] -- and the validator's error is nowhere in what it
    receives. *)
Theorem validate_drops_validator_error :
  run db_down db_doc doc_x rules_3 IgnUndefined w0 =
    (Returned [ErrDescriptor {| code := "invalid_name";
                                err_message := Some "Name is required." |}],
     {| trace := [EvPupilValidate; EvInvoke "unique" "patient_id_unique";
                  EvQuery "patient_id:x"; error_log "unique"];
        results := [("name", false); ("patient_id_unique", true);
                    ("week_isISOWeek", true)] |}) /\
  unique db_down db_doc (fun _ => None) JsString.toLowerCase_ascii (attributes_of doc_x)
         {| property := "patient_id_unique"; rule := "unique('patient_id')";
            message := Some [("Patient ID must be unique.", "en")];
            translation_key := None; funcName := Some "unique";
            funcArgs := ["patient_id"]; field := Some "patient_id" |} w0
  = (Returned (Some (Error "db down"), Some true),
     {| trace := [EvQuery "patient_id:x"; error_log "unique"]; results := [] |}).
Proof. split; reflexivity. Qed.

(** C2, on a run: [name] is false after the synchronous evaluation and
    stays false, although every extra validator of the run answers. *)
Lemma validate_only_downgrades_witness :
  parse_failures string parse rules_3 = [] /\
  Js.lookup (results (snd (run db_query db_doc doc_x rules_3 IgnUndefined w0))) "name"
  = Some false.
Proof.
  split; [reflexivity|].
  apply (proj1 (validate_only_downgrades string (fun e => e) parse evaluate unit
                  (fun _ => tt) message_of db_query db_doc (fun _ => None) 2026
                  (jsnum * option string)%type parse_digits pair days_before_now
                      JsString.toLowerCase_ascii
                  doc_x rules_3 IgnUndefined w0
                  [("name", false); ("patient_id_unique", true); ("week_isISOWeek", true)]
                  "name" eq_refl eq_refl)).
  reflexivity.
Defined.


(** A document whose [my_unique_id] is shared by the stored, error-free
    document [d2]. *)
Definition doc_m : AttributeMap := [("_id", JStr "d1"); ("my_unique_id", JStr "M1")].

Definition db_query_m (key : string) : JsError + list string :=
  if String.eqb key "my_unique_id:m1" then inr ["d1"; "d2"] else inr [].

Definition unique_my_unique_id : ValidationSpec :=
  spec "my_unique_id" "unique('my_unique_id')" "Must be unique.".

(** C4: what the code does on a property that contains [_unique] without
    ending with it.  The property [my_unique_id] does not end with
    [_unique] and its rule calls the registered validator [unique], so the
    spec is one the rewriter has to rewrite on its first pass.  The guard
    finds [_unique] inside the property and leaves the spec as it was: no
    [funcName] is recorded, and [validate] never invokes [unique] -- the
    document passes although the datastore holds the error-free duplicate
    [d2].  The same rule declared under the property [id] is rewritten,
    [unique] runs and the duplicate is reported. *)
Theorem rewrite_guard_skips_validator :
  JsString.endsWith (property unique_my_unique_id) "_unique" = false /\
  registered_subs (call "unique" ["my_unique_id"]) = [unique_call ["my_unique_id"]] /\
  rewrite_spec string parse unique_my_unique_id = inr unique_my_unique_id /\
  rewrite_spec string parse unique_my_unique_id
  <> inr (rewritten unique_my_unique_id (unique_call ["my_unique_id"]) "unique") /\
  run db_query_m db_doc doc_m [unique_my_unique_id] IgnUndefined w0
  = (Returned [],
     {| trace := [EvPupilValidate]; results := [("my_unique_id", true)] |}) /\
  run db_query_m db_doc doc_m [spec "id" "unique('my_unique_id')" "Must be unique."]
      IgnUndefined w0
  = (Returned [ErrDescriptor {| code := "invalid_id_unique";
                                err_message := Some "Must be unique." |}],
     {| trace := [EvPupilValidate; EvInvoke "unique" "id_unique";
                  EvQuery "my_unique_id:m1"; EvAllDocs ["d2"]];
        results := [("id_unique", false)] |}).
Proof. repeat split; try reflexivity. discriminate. Qed.

(** The guard on a run: [patient_id] does not contain [_unique] and is
    rewritten. *)
Lemma rewrite_spec_contains_guard_witness :
  parse (rule unique_patient_id) = inr (call "unique" ["patient_id"]) /\
  JsString.indexOf (property unique_patient_id) "_unique" = -1 /\
  rewrite_spec string parse unique_patient_id
  = inr {| property := "patient_id_unique"; rule := "unique('patient_id')";
           message := Some [("Patient ID must be unique.", "en")];
           translation_key := None; funcName := Some "unique";
           funcArgs := ["patient_id"]; field := Some "patient_id" |}.
Proof.
  split; [reflexivity | split; [reflexivity|]].
  apply (proj1 (proj2 (proj2 (rewrite_spec_contains_guard string parse unique_patient_id
                                (call "unique" ["patient_id"]) eq_refl))
                  (unique_call ["patient_id"]) "unique" eq_refl eq_refl)).
  reflexivity.
Defined.

(** C5, on a run. *)
Lemma validate_rewrite_idempotent_witness :
  map property (fst (validate_rewrite string parse
                       (fst (validate_rewrite string parse rules_3))))
  = ["name"; "patient_id_unique"; "week_isISOWeek"].
Proof.
  rewrite (proj2 (validate_rewrite_idempotent string parse rules_3)). reflexivity.
Defined.

(** C6: two rules fail to parse and the callback receives two strings. *)
Lemma validate_two_parse_errors :
  run db_query db_doc doc_x
      [spec "a" "(" "A"; spec "b" "fail" "B"; spec "c" ")" "C"] IgnUndefined w0
  = (Returned [ErrString "Error on pupil validations: unexpected end of rule";
               ErrString "Error on pupil validations: unexpected token"],
     {| trace := [parse_error_log; parse_error_log]; results := [] |}).
Proof. reflexivity. Qed.

(** C6, on a run with one rule that fails to parse. *)
Lemma validate_parse_failure_witness :
  run db_query db_doc doc_x [spec "a" "(" "A"; spec "b" "fail" "B"] IgnUndefined w0
  = (Returned [ErrString "Error on pupil validations: unexpected end of rule"],
     {| trace := [parse_error_log]; results := [] |}).
Proof.
  exact (proj2 (validate_parse_failure string (fun e => e) parse evaluate unit
                  (fun _ => tt) message_of db_query db_doc (fun _ => None) 2026
                  (jsnum * option string)%type parse_digits pair days_before_now
                      JsString.toLowerCase_ascii
                  doc_x [spec "a" "(" "A"; spec "b" "fail" "B"] IgnUndefined w0
                  (ex_intro _ (spec "a" "(" "A")
                     (ex_intro _ "unexpected end of rule"
                        (conj (or_introl eq_refl) eq_refl))))).
Defined.

(** C9: the empty string given as the single ignore value ignores nothing. *)
Lemma extractErrors_empty_name_not_ignored :
  extractErrors [(EmptyString, false)] [] (IgnName EmptyString)
  = [{| code := "invalid_"; err_message := None |}] /\
  extractErrors [(EmptyString, false)] [] (IgnArray [EmptyString]) = [].
Proof. split; reflexivity. Qed.

(** C9, on a run with a single, non-empty ignore name. *)
Lemma extractErrors_spec_witness :
  extractErrors [("name", false); ("week", false); ("id", true)]
                [("name", "Name is required.")] (IgnName "week")
  = [{| code := "invalid_name"; err_message := Some "Name is required." |}].
Proof.
  rewrite (proj1 (extractErrors_spec _ _ _)). reflexivity.
Defined.

Definition unique_rewritten : ValidationSpec :=
  rewritten unique_patient_id (unique_call ["patient_id"]) "unique".

Definition uniqueWithin_rewritten : ValidationSpec :=
  rewritten (spec "patient_id" "uniqueWithin('patient_id','7 days')" "Seen this week.")
            {| e_funcName := Some "uniqueWithin"; e_funcArgs := ["patient_id"; "7 days"] |}
            "uniqueWithin".



Definition isISOWeek_spec_2015 : ValidationSpec :=
  {| property := "week_isISOWeek"; rule := "isISOWeek('week','year')";
     message := None; translation_key := None; funcName := Some "isISOWeek";
     funcArgs := ["week"; "year"]; field := Some "week" |}.




Definition exists_without_arguments : ValidationSpec :=
  {| property := "patient_id_exists"; rule := "exists()"; message := None;
     translation_key := None; funcName := Some "exists"; funcArgs := [];
     field := Some "patient_id" |}.

Definition uniqueWithin_without_arguments : ValidationSpec :=
  {| property := "patient_id_uniqueWithin"; rule := "uniqueWithin()"; message := None;
     translation_key := None; funcName := Some "uniqueWithin"; funcArgs := [];
     field := Some "patient_id" |}.

(** C10: on a spec whose [funcArgs] is empty the [exists] validator sends
    its lookups and answers a boolean, and [uniqueWithin] throws while
    reading the missing duration; neither reports the error of the shared
    existence check. *)
Lemma empty_funcArgs_without_error :
  exists_ db_query db_doc (fun _ => None)
      JsString.toLowerCase_ascii (attributes_of doc_x) exists_without_arguments w0
  = (Returned (None, Some false),
     {| trace := [EvQuery "undefined:undefined"; EvQuery "form:undefined"];
        results := [] |}) /\
  uniqueWithin db_query db_doc (fun _ => None) (jsnum * option string)%type
               parse_digits pair days_before_now JsString.toLowerCase_ascii
               (attributes_of doc_x) uniqueWithin_without_arguments w0
  = (Threw (TypeError "Cannot read property 'split' of undefined"), w0).
Proof. split; reflexivity. Qed.

(** C10, on [unique] with no argument. *)
Lemma exists_no_arguments_witness :
  funcArgs (spec "patient_id" "unique()" "Patient ID must be unique.") = [] /\
  unique db_query db_doc (fun _ => None) JsString.toLowerCase_ascii (attributes_of doc_x)
         (spec "patient_id" "unique()" "Patient ID must be unique.") w0
  = (Returned (Some no_arguments_error, Some true),
     {| trace := [error_log "unique"]; results := [] |}).
Proof.
  split; [reflexivity|].
  exact (proj1 (proj2 (exists_no_arguments db_query db_doc (fun _ => None)
                         (jsnum * option string)%type parse_digits pair days_before_now
                             JsString.toLowerCase_ascii
                         (attributes_of doc_x)
                         (spec "patient_id" "unique()" "Patient ID must be unique.") w0))
           eq_refl).
Defined.

(** *** Runs for the further properties *)

Definition doc_z : AttributeMap := [("_id", JStr "d9"); ("patient_id", JStr "Z")].

(** A datastore whose only match for ["z"] is the document [d9] itself. *)
Definition db_query_own (key : string) : JsError + list string :=
  if String.eqb key "patient_id:z" then inr ["d9"] else inr [].


Definition plain_rules : list ValidationSpec :=
  [ spec "name" "fail" "Name is required."; spec "age" "integer" "Age is a number." ].




(** [unique] with the datastore down. *)
Lemma query_failure_propagates_witness :
  unique db_down db_doc (fun _ => None) JsString.toLowerCase_ascii doc_y unique_rewritten w0
  = (Returned (Some (Error "db down"), Some true),
     {| trace := [EvQuery "patient_id:y"; error_log "unique"]; results := [] |}).
Proof.
  refine (proj1 (query_failure_propagates db_down db_doc (fun _ => None)
      JsString.toLowerCase_ascii doc_y
                   unique_rewritten w0 (Error "db down")) _ eq_refl).
  discriminate.
Defined.

(** [unique] finds no other document for ["z"]; neither does [uniqueWithin]. *)
Lemma uniqueWithin_weaker_witness :
  fst (unique db_query db_doc (fun _ => None) JsString.toLowerCase_ascii doc_z unique_rewritten w0)
  = Returned (None, Some true) /\
  fst (uniqueWithin db_query db_doc (fun _ => None) (jsnum * option string)%type
                    parse_digits pair days_before_now
                        JsString.toLowerCase_ascii doc_z uniqueWithin_rewritten w0)
  = Returned (None, Some true).
Proof.
  split; [reflexivity|].
  exact (uniqueWithin_weaker db_query db_doc (fun _ => None) (jsnum * option string)%type
           parse_digits pair days_before_now
               JsString.toLowerCase_ascii doc_z unique_rewritten uniqueWithin_rewritten
           "7 days" w0 None eq_refl eq_refl).
Defined.

Lemma plain_rules_parse (v : ValidationSpec) :
  In v plain_rules ->
  exists entities, parse (rule v) = inr entities /\ registered_subs entities = [].
Proof.
  intros [<-|[<-|[]]]; eexists; split; reflexivity.
Defined.

Lemma plain_rules_fresh (v : ValidationSpec) : In v plain_rules -> funcName v = None.
Proof. intros [<-|[<-|[]]]; reflexivity. Defined.

(** Two grammar-only rules, with the datastore down: it is never asked. *)
Lemma validate_without_extra_validators_witness :
  run db_down db_doc doc_x plain_rules IgnUndefined w0
  = (Returned [ErrDescriptor {| code := "invalid_name";
                                err_message := Some "Name is required." |}],
     {| trace := [EvPupilValidate]; results := [("name", false); ("age", true)] |}).
Proof.
  exact (proj2 (validate_without_extra_validators string (fun e => e) parse evaluate unit
                  (fun _ => tt) message_of db_down db_doc (fun _ => None) 2026
                  (jsnum * option string)%type parse_digits pair days_before_now
                      JsString.toLowerCase_ascii
                  doc_x plain_rules IgnUndefined w0 [("name", false); ("age", true)]
                  plain_rules_parse plain_rules_fresh eq_refl)).
Defined.

(** An evaluator that rejects every rule set. *)
Definition evaluate_throws (_ : list (string * string)) (_ : AttributeMap)
  : string + ResultSet := inl "unknown function".

Lemma validate_evaluation_failure_witness :
  validate string (fun e => e) parse evaluate_throws unit (fun _ => tt) message_of
           db_query db_doc (fun _ => None) 2026
           (jsnum * option string)%type parse_digits pair days_before_now JsString.toLowerCase_ascii
           doc_x rules_3 IgnUndefined w0
  = (Returned [ErrString "Error on pupil validations: unknown function"],
     {| trace := [EvPupilValidate]; results := [] |}).
Proof.
  exact (validate_evaluation_failure string (fun e => e) parse evaluate_throws unit
           (fun _ => tt) message_of db_query db_doc (fun _ => None) 2026
           (jsnum * option string)%type parse_digits pair days_before_now JsString.toLowerCase_ascii
           doc_x rules_3 IgnUndefined w0 "unknown function" eq_refl eq_refl).
Defined.

Lemma doc_x_keys : NoDup (map fst doc_x).
Proof.
  repeat constructor; simpl; intros H;
    repeat (destruct H as [H|H]; [discriminate H|]); exact H.
Defined.

Lemma doc_x_fields_keys (fields : list (string * jsval)) :
  Js.get doc_x "fields" = JObj fields -> NoDup (map fst fields).
Proof.
  intros H. injection H as <-. repeat constructor. intros [].
Defined.

(** [patient_id] is found under [fields] of [doc_x]. *)
Lemma attributes_of_get_witness :
  Js.get (attributes_of doc_x) "patient_id" = JStr "X".
Proof.
  rewrite (attributes_of_get doc_x "patient_id" doc_x_keys doc_x_fields_keys).
  reflexivity.
Defined.

Lemma parseDuration_parts_witness :
  _parseDuration (jsnum * option string)%type parse_digits pair "7 days"
  = (Some 7, Some "days").
Proof.
  exact (proj1 (proj2 (parseDuration_parts (jsnum * option string)%type parse_digits pair
                         "7" "days" EmptyString eq_refl eq_refl))).
Defined.

(** Week 52 of 2016. *)
Lemma isISOWeek_weeks_witness :
  isISOWeek 2026 [("week", JStr "52"); ("year", JStr "2016")] isISOWeek_spec_2015 w0
  = (Returned (None, Some true), w0).
Proof.
  refine (proj1 (isISOWeek_weeks 2026 [("week", JStr "52"); ("year", JStr "2016")]
                   isISOWeek_spec_2015 w0 "week" "year" "52" "2016"
                   eq_refl _ eq_refl eq_refl eq_refl eq_refl) _).
  - discriminate.
  - vm_compute. split; discriminate.
Defined.

Lemma doc_z_only_itself (id : string) :
  (forall key,
      In key (requestOptions_of JsString.toLowerCase_ascii doc_z ["patient_id"]
                {| additionalFilter := None; startDate := None |}) ->
      In id (rows_of db_query_own key)) ->
  Js.get doc_z "_id" = JStr id.
Proof.
  intros H. specialize (H "patient_id:z" (or_introl eq_refl)).
  destruct H as [<-|[]]. reflexivity.
Defined.

(** The only match is the document itself: one lookup, no fetch. *)
Lemma exists_no_candidates_witness :
  _exists db_query_own db_doc (fun _ => None) JsString.toLowerCase_ascii doc_z ["patient_id"]
          (Some {| additionalFilter := None; startDate := None |}) w0
  = (Returned (None, Some false),
     {| trace := [EvQuery "patient_id:z"]; results := [] |}).
Proof.
  refine (exists_no_candidates db_query_own db_doc (fun _ => None)
      JsString.toLowerCase_ascii doc_z ["patient_id"]
            {| additionalFilter := None; startDate := None |} w0 _ eq_refl doc_z_only_itself).
  discriminate.
Defined.

Lemma ignoring_field_keeps_validator_error_witness :
  In {| code := "invalid_patient_id_unique"; err_message := Some "Patient ID must be unique." |}
     (extractErrors [("patient_id_unique", false)]
        [("patient_id_unique", "Patient ID must be unique.")] (IgnArray ["patient_id"])).
Proof.
  exact (proj1 (ignoring_field_keeps_validator_error [("patient_id_unique", false)]
                  [("patient_id_unique", "Patient ID must be unique.")]
                  "patient_id" "unique" (or_introl eq_refl))).
Defined.

Example formatParam_examples :
  _formatParam ("pa" ++ Js.dq ++ "tient") (JStr ("a" ++ Js.dq ++ "b"))
  = "patient:" ++ Js.dq ++ "a" ++ String backslash_char Js.dq ++ "b" ++ Js.dq /\
  _formatParam "age" (JNum 5) = "age<int>:5" /\
  _formatParam "flag" (JBool true) = "flag:true".
Proof. repeat split; reflexivity. Qed.

End Scenarios.
